(** * The scootjs compute resource builder

    A shallow embedding of [lib/resources/compute.js]: the [compute]
    factory and the fluent methods it attaches ([vcs], [code],
    [description], [env], [tag], [on], [use]), over an explicit store of
    JavaScript objects, so that "the very same object" is equality of
    store locations.

    Names: the source calls the identity block [meta] (its fields [id] and
    [type]), the fluent methods [vcs], [code], [description], [env], [tag],
    [on] and [use]; the specification calls them metadata (instanceId, type),
    setSourceControl, setCode, setDescription, setEnv, setTag, onEvent and
    use. *)

From Stdlib Require Import Ascii String.
From stdpp Require Import base gmap strings list.

(** ** JavaScript values *)

(** Store locations: the identity of an object. *)
Definition loc := positive.

(** The values the builder is called with: [undefined] (also an argument
    that is left out), a string, or a reference to an object. *)
Inductive value :=
| VUndefined
| VStr (s : string)
| VRef (l : loc).

#[global] Instance value_eq_dec : EqDecision value.
Proof. solve_decision. Defined.

(** ToBoolean: [undefined] and the empty string are falsy. *)
Definition truthy (v : value) : bool :=
  match v with
  | VUndefined => false
  | VStr EmptyString => false
  | VStr _ => true
  | VRef _ => true
  end.

(** ToString, as [+ 'Ref'] and a computed property key apply it; every
    object of this library is a plain object. *)
Definition js_to_string (v : value) : string :=
  match v with
  | VUndefined => "undefined"
  | VStr s => s
  | VRef _ => "[object Object]"
  end.

(** The kind tags exported by [lib/types], as an enumeration. *)
Inductive kind := Compute | InternalEvent.

(** The failures the builder signals, under the specification's names:
    a failed [assert] is [MissingArgument], a rejected label is
    [InvalidIdentifier], a write to a sealed field is
    [ImmutableFieldError], and reading a property of [undefined] is the
    engine's [TypeError]. *)
Inductive error :=
| MissingArgument
| InvalidIdentifier
| ImmutableFieldError
| TypeError.

#[global] Instance error_eq_dec : EqDecision error.
Proof. solve_decision. Defined.

(** ** Connections *)

(** A Trigger edge [{from, to}] and a Reference edge
    [{name, from, to, allow}]; [from] and [to] hold the values they were
    given, so an object is held by its location. *)
Record Trigger := mkTrigger {
  trigger_from : value;
  trigger_to : value
}.

Record Reference := mkReference {
  ref_name : value;
  ref_from : value;
  ref_to : value;
  ref_allow : list string
}.

(** Modelled from the spec: [lib/connections/trigger] is not part of the
    verified sources. The chain [trigger().from(event).to(resource)] is a
    pure assembly of the edge, with no validation. *)
Module trigger.
Record from_stage := FromStage { }.
Record to_stage := ToStage { pending_from : value }.
Definition create : from_stage := FromStage.
Definition from (_ : from_stage) (event : value) : to_stage :=
  ToStage event.
Definition to (b : to_stage) (resource : value) : Trigger :=
  mkTrigger (pending_from b) resource.
End trigger.

(** Modelled from the spec: [lib/connections/reference] is not part of the
    verified sources. The chain
    [ref(name).from(resource).to(target).allow(actions)] is a pure assembly
    of the edge, with no validation. *)
Module ref.
Record from_stage := FromStage { st_name : value }.
Record to_stage := ToStage { to_name : value; to_from : value }.
Record allow_stage := AllowStage {
  al_name : value; al_from : value; al_to : value
}.
Definition create (name : value) : from_stage := FromStage name.
Definition from (b : from_stage) (resource : value) : to_stage :=
  ToStage (st_name b) resource.
Definition to (b : to_stage) (target : value) : allow_stage :=
  AllowStage (to_name b) (to_from b) target.
Definition allow (b : allow_stage) (actions : list string) : Reference :=
  mkReference (al_name b) (al_from b) (al_to b) actions.
End ref.

(** ** Objects and the store *)

(** [self.meta]: the instance identifier and the kind tag, and whether
    [Object.freeze] was applied to the block. *)
Record metadata := mkMeta {
  meta_id : string;
  meta_type : kind;
  meta_frozen : bool
}.

(** [self.config]. A property that was never assigned ([vcs], [code],
    [description]) is [None]. [environment] and [tags] are plain objects
    used as maps: their own properties, and their prototype, which is
    [Object.prototype] ([None]) until an assignment to the key
    ["__proto__"] replaces it with an object of the store. [cfg_sealed] is
    the set of property names the Immutability Guard has locked on this
    object. *)
Record configuration := mkConfig {
  cfg_id : value;
  cfg_runtime : value;
  cfg_triggers : list Trigger;
  cfg_references : list Reference;
  cfg_environment : gmap string value;
  cfg_tags : gmap string value;
  cfg_vcs : option value;
  cfg_code : option value;
  cfg_description : option value;
  cfg_environment_proto : option loc;
  cfg_tags_proto : option loc;
  cfg_sealed : gset string
}.

(** The compute object [self]; [sealed] is the set of property names the
    Immutability Guard has locked on [self] itself. *)
Record resource := mkResource {
  meta : metadata;
  config : configuration;
  sealed : gset string
}.

(** Modelled from the spec: [lib/events/ievent] is not part of the
    verified sources.
    An internal event carries its kind tag and its validated name, and no
    [config]. *)
Record event := mkEvent {
  ev_type : kind;
  ev_name : value
}.

Inductive object :=
| OCompute (r : resource)
| OEvent (e : event).

(** The store, and how many identifiers the Identity Allocator has
    handed out so far. *)
Record state := mkState {
  heap : gmap loc object;
  uuid_calls : nat
}.

Definition empty_state : state := mkState ∅ 0.

(** ** Computations that read and write the store and may throw *)

Inductive outcome (A : Type) :=
| Return (a : A)
| Throw (e : error).
Arguments Return {A} a.
Arguments Throw {A} e.

Definition M (A : Type) : Type := state → outcome A * state.

#[global] Instance M_ret : MRet M := λ A a s, (Return a, s).
#[global] Instance M_bind : MBind M := λ A B f m s,
  match m s with
  | (Return a, s') => f a s'
  | (Throw e, s') => (Throw e, s')
  end.

Definition throw {A} (e : error) : M A := λ s, (Throw e, s).

(** ** The Immutability Guard *)

(** Modelled from the spec: [freeze] of [lib/utils] is not part of the
    verified sources. [freeze(obj, prop)] locks the property [prop] of
    [obj]: the name joins the object's set of sealed names, and a later
    assignment to a sealed name signals [ImmutableFieldError]. *)
Definition freeze (locked : gset string) (prop : string) : gset string :=
  {[ prop ]} ∪ locked.

Definition is_sealed (locked : gset string) (prop : string) : bool :=
  bool_decide (prop ∈ locked).

(** [Object.freeze(self.meta)]. *)
Definition object_freeze (m : metadata) : metadata :=
  mkMeta (meta_id m) (meta_type m) true.

Definition set_meta (r : resource) (m : metadata) : resource :=
  mkResource m (config r) (sealed r).

Definition set_config (r : resource) (c : configuration) : resource :=
  mkResource (meta r) c (sealed r).

Definition set_sealed (r : resource) (locked : gset string) : resource :=
  mkResource (meta r) (config r) locked.

Definition set_cfg_sealed (c : configuration) (locked : gset string)
  : configuration :=
  mkConfig (cfg_id c) (cfg_runtime c) (cfg_triggers c) (cfg_references c)
    (cfg_environment c) (cfg_tags c) (cfg_vcs c) (cfg_code c)
    (cfg_description c) (cfg_environment_proto c) (cfg_tags_proto c) locked.

(** ** Assignments to the properties of [config] *)

(** An assignment [self.config.<prop> = ...], one constructor per
    property; an object assigned to [environment] or [tags] is given by
    its own properties and its prototype. *)
Inductive config_write :=
| WId (v : value)
| WRuntime (v : value)
| WTriggers (l : list Trigger)
| WReferences (l : list Reference)
| WEnvironment (m : gmap string value) (proto : option loc)
| WTags (m : gmap string value) (proto : option loc)
| WVcs (v : value)
| WCode (v : value)
| WDescription (v : value).

Definition write_prop (w : config_write) : string :=
  match w with
  | WId _ => "id"
  | WRuntime _ => "runtime"
  | WTriggers _ => "triggers"
  | WReferences _ => "references"
  | WEnvironment _ _ => "environment"
  | WTags _ _ => "tags"
  | WVcs _ => "vcs"
  | WCode _ => "code"
  | WDescription _ => "description"
  end.

Definition apply_write (w : config_write) (c : configuration)
  : configuration :=
  let '(mkConfig i r t rf e tg v cd d ep tp sl) := c in
  match w with
  | WId x => mkConfig x r t rf e tg v cd d ep tp sl
  | WRuntime x => mkConfig i x t rf e tg v cd d ep tp sl
  | WTriggers x => mkConfig i r x rf e tg v cd d ep tp sl
  | WReferences x => mkConfig i r t x e tg v cd d ep tp sl
  | WEnvironment x xp => mkConfig i r t rf x tg v cd d xp tp sl
  | WTags x xp => mkConfig i r t rf e x v cd d ep xp sl
  | WVcs x => mkConfig i r t rf e tg (Some x) cd d ep tp sl
  | WCode x => mkConfig i r t rf e tg v (Some x) d ep tp sl
  | WDescription x => mkConfig i r t rf e tg v cd (Some x) ep tp sl
  end.

(** Modelled from the spec: [lib/events/ievent] is not part of the
    verified sources. The property names sealed on an event: its metadata
    block, which the event test reads as [_meta]. *)
Definition event_sealed : gset string := {[ "_meta" ]}.

(** Whether the object at [l] holds [key] as a property that cannot be
    written: a name the Immutability Guard sealed on it. *)
Definition read_only (s : state) (l : loc) (key : string) : bool :=
  match heap s !! l with
  | Some (OCompute p) => is_sealed (sealed p) key
  | Some (OEvent _) => is_sealed event_sealed key
  | None => false
  end.

(** Whether [obj[key] = v] is refused, for a key other than
    ["__proto__"], on a plain object with own properties [o] and prototype
    [proto]: an own property is always writable; a key the object does not
    own is looked up along the prototype chain, and the write is refused
    when the replaced prototype holds it read-only. Every property of
    [Object.prototype] is writable. *)
Definition refuses (s : state) (o : gmap string value) (proto : option loc)
    (key : string) : bool :=
  match o !! key with
  | Some _ => false
  | None =>
      match proto with
      | Some l => read_only s l key
      | None => false
      end
  end.

(** [obj[key] = v] on a plain object used as a map ([environment],
    [tags]), in strict code. The key ["__proto__"] reaches the setter
    inherited from [Object.prototype]: an object becomes the new
    prototype, any other value is ignored, and no own property is created.
    Any other key inserts or overwrites an own property, unless the write
    is refused ([None]). The result is the own properties and the
    prototype afterwards. *)
Definition set_property (s : state) (key : string) (v : value)
    (o : gmap string value) (proto : option loc)
  : option (gmap string value * option loc) :=
  if decide (key = "__proto__") then
    match v with
    | VRef l => Some (o, Some l)
    | _ => Some (o, proto)
    end
  else if refuses s o proto key then None
  else Some (<[ key := v ]> o, proto).

(** Whether [obj[key] = v] goes through, whatever [v] is: the key
    ["__proto__"] always does, any other key unless it is refused. *)
Definition accepts (s : state) (o : gmap string value) (proto : option loc)
    (key : string) : bool :=
  bool_decide (key = "__proto__") || negb (refuses s o proto key).

(** [self.config.triggers.push(edge)] and
    [self.config.references.push(edge)]. *)
Definition push_trigger (edge : Trigger) (r : resource) : resource :=
  set_config r
    (apply_write (WTriggers (cfg_triggers (config r) ++ [edge])) (config r)).

Definition push_reference (edge : Reference) (r : resource) : resource :=
  set_config r
    (apply_write (WReferences (cfg_references (config r) ++ [edge]))
       (config r)).

(** The store with the object at [l] replaced. *)
Definition with_object (s : state) (l : loc) (o : object) : state :=
  mkState (<[ l := o ]> (heap s)) (uuid_calls s).

(** The name [use] gives the reference. *)
Definition reference_name (target_id alias : value) : value :=
  if truthy alias then alias else VStr (js_to_string target_id +:+ "Ref").

(** The label the event test rejects. *)
Definition bad_label : string := "my-bad id-for my event".

(** What the factory builds when its checks pass. *)
Definition new_compute (id runtime : value) (u : string) : resource :=
  mkResource (mkMeta u Compute true)
    (mkConfig id runtime [] [] ∅ ∅ None None None None None {[ "id" ]})
    {[ "meta" ]}.

(** ** Store primitives *)

Definition alloc (o : object) : M loc := λ s,
  let l := fresh (dom (heap s)) in
  (Return l, mkState (<[ l := o ]> (heap s)) (uuid_calls s)).

(** Reading [self] inside a method: the closure's [self] is the compute
    object it was created for. *)
Definition get_self (self : loc) : M resource := λ s,
  match heap s !! self with
  | Some (OCompute r) => (Return r, s)
  | _ => (Throw TypeError, s)
  end.

Definition put_self (self : loc) (r : resource) : M unit := λ s,
  (Return tt, with_object s self (OCompute r)).

(** [self.config.<prop> = ...]: refused on a sealed property. *)
Definition assign_config (self : loc) (w : config_write) : M unit :=
  r ← get_self self;
  if is_sealed (cfg_sealed (config r)) (write_prop w)
  then throw ImmutableFieldError
  else put_self self (set_config r (apply_write w (config r))).

(** [self.meta = m]: refused once [meta] is sealed on [self]. *)
Definition assign_meta (self : loc) (m : metadata) : M unit :=
  r ← get_self self;
  if is_sealed (sealed r) "meta"
  then throw ImmutableFieldError
  else put_self self (set_meta r m).

(** [self.meta.id = u] and [self.meta.type = k]: refused on a frozen
    block. *)
Definition assign_meta_id (self : loc) (u : string) : M unit :=
  r ← get_self self;
  if meta_frozen (meta r)
  then throw ImmutableFieldError
  else put_self self
         (set_meta r (mkMeta u (meta_type (meta r)) (meta_frozen (meta r)))).

Definition assign_meta_type (self : loc) (k : kind) : M unit :=
  r ← get_self self;
  if meta_frozen (meta r)
  then throw ImmutableFieldError
  else put_self self
         (set_meta r (mkMeta (meta_id (meta r)) k (meta_frozen (meta r)))).

(** [resource.config.id], as [use] reads it: a [TypeError] when
    [resource] is [undefined], or has no [config]. *)
Definition read_config_id (resource : value) : M value := λ s,
  match resource with
  | VRef l =>
      match heap s !! l with
      | Some (OCompute r) => (Return (cfg_id (config r)), s)
      | _ => (Throw TypeError, s)
      end
  | _ => (Throw TypeError, s)
  end.

(** [obj[key] = v] as a step of a method: a refused write throws, as
    the Immutability Guard does, and writes nothing. *)
Definition assign_property (key : string) (v : value)
    (o : gmap string value) (proto : option loc)
  : M (gmap string value * option loc) := λ s,
  match set_property s key v o proto with
  | Some after => (Return after, s)
  | None => (Throw ImmutableFieldError, s)
  end.

(** ** The identifier grammar and the allocator used in examples *)

Definition is_alnum (a : ascii) : bool :=
  let n := nat_of_ascii a in
  ((48 <=? n) && (n <=? 57)) || ((65 <=? n) && (n <=? 90))
  || ((97 <=? n) && (n <=? 122)).

(** Modelled from the spec: [validateId] of [lib/utils] is not part of the
    verified sources. The grammar the specification evidences: a
    non-empty run of letters and digits, read on the string form of the
    label. *)
Definition alnum_identifier (v : value) : bool :=
  match list_ascii_of_string (js_to_string v) with
  | [] => false
  | a :: l => forallb is_alnum (a :: l)
  end.

Definition has_space (s : string) : bool :=
  existsb (Ascii.eqb " ") (list_ascii_of_string s).

(** A stand-in for the random [uuid/v4] generator in examples: the k-th
    call yields a run of k+1 letters. *)
Definition demo_uuid (k : nat) : string :=
  string_of_list_ascii (replicate (S k) "u"%char).

(** ** The builder *)

Section Builder.

(** [validateId] accepts exactly the labels [valid_identifier] holds of. *)
Variable valid_identifier : value → bool.

(** The k-th identifier the [uuid/v4] generator hands out in this
    process. *)
Variable uuid_v4 : nat → string.

(** [assert(v, msg)] *)
Definition assert (v : value) : M unit :=
  if truthy v then mret tt else throw MissingArgument.

Definition validateId (label : value) : M unit :=
  if valid_identifier label then mret tt else throw InvalidIdentifier.

Definition uuid : M string := λ s,
  (Return (uuid_v4 (uuid_calls s)), mkState (heap s) (S (uuid_calls s))).

Definition compute (id runtime : value) : M value :=
  assert id;;
  assert runtime;;
  validateId id;;
  u ← uuid;
  let self :=
    mkResource (mkMeta u Compute false)
      (mkConfig id runtime [] [] ∅ ∅ None None None None None ∅) ∅ in
  let self := set_meta self (object_freeze (meta self)) in
  let self := set_sealed self (freeze (sealed self) "meta") in
  let self :=
    set_config self
      (set_cfg_sealed (config self) (freeze (cfg_sealed (config self)) "id")) in
  l ← alloc (OCompute self);
  mret (VRef l).

Definition vcs (self : loc) (url : value) : M value :=
  assign_config self (WVcs url);;
  mret (VRef self).

Definition code (self : loc) (content : value) : M value :=
  assign_config self (WCode content);;
  mret (VRef self).

Definition description (self : loc) (text : value) : M value :=
  assign_config self (WDescription text);;
  mret (VRef self).

Definition env (self : loc) (name val : value) : M value :=
  r ← get_self self;
  let c := config r in
  after ← assign_property (js_to_string name) val
             (cfg_environment c) (cfg_environment_proto c);
  put_self self
    (set_config r (apply_write (WEnvironment after.1 after.2) c));;
  mret (VRef self).

Definition tag (self : loc) (key val : value) : M value :=
  r ← get_self self;
  let c := config r in
  after ← assign_property (js_to_string key) val
             (cfg_tags c) (cfg_tags_proto c);
  put_self self (set_config r (apply_write (WTags after.1 after.2) c));;
  mret (VRef self).

Definition on (self : loc) (event : value) : M value :=
  r ← get_self self;
  put_self self
    (push_trigger
       (trigger.to (trigger.from trigger.create event) (VRef self)) r);;
  mret (VRef self).

Definition use (self : loc) (resource : value) (actions : list string)
    (alias : value) : M value :=
  target_id ← read_config_id resource;
  let name := VStr (js_to_string target_id +:+ "Ref") in
  let name := if truthy alias then alias else name in
  r ← get_self self;
  put_self self
    (push_reference
       (ref.allow (ref.to (ref.from (ref.create name) (VRef self)) resource)
          actions) r);;
  mret (VRef self).

(** Modelled from the spec: [lib/events/ievent] is not part of the
    verified sources.
    The event factory validates the name, then returns an internal event
    carrying the InternalEvent tag. *)
Definition ievent (name : value) : M value :=
  validateId name;;
  l ← alloc (OEvent (mkEvent InternalEvent name));
  mret (VRef l).

(** [recv.m(...)]: [Object.assign(self, builders(self))] attaches to
    each compute object the methods closed over that same object, so a
    method reached through a reference runs with [self] the referenced
    location. *)
Definition call_method (recv : value) (m : loc → M value) : M value :=
  match recv with
  | VRef self => m self
  | _ => throw TypeError
  end.

(** ** Build scripts *)

(** One call of a build script: a factory call, a fluent method of the
    resource at [self], or a direct assignment by the caller. *)
Inductive call :=
| CallCompute (id runtime : value)
| CallIevent (name : value)
| CallVcs (self : loc) (url : value)
| CallCode (self : loc) (content : value)
| CallDescription (self : loc) (text : value)
| CallEnv (self : loc) (name val : value)
| CallTag (self : loc) (key val : value)
| CallOn (self : loc) (event : value)
| CallUse (self : loc) (resource : value) (actions : list string)
    (alias : value)
| AssignConfig (self : loc) (w : config_write)
| AssignMeta (self : loc) (m : metadata)
| AssignMetaId (self : loc) (u : string)
| AssignMetaType (self : loc) (k : kind).

Definition discard {A} (m : M A) : M unit := m;; mret tt.

Definition run (c : call) : M unit :=
  match c with
  | CallCompute id runtime => discard (compute id runtime)
  | CallIevent name => discard (ievent name)
  | CallVcs self url => discard (vcs self url)
  | CallCode self content => discard (code self content)
  | CallDescription self text => discard (description self text)
  | CallEnv self name val => discard (env self name val)
  | CallTag self key val => discard (tag self key val)
  | CallOn self event => discard (on self event)
  | CallUse self resource actions alias =>
      discard (use self resource actions alias)
  | AssignConfig self w => assign_config self w
  | AssignMeta self m => assign_meta self m
  | AssignMetaId self u => assign_meta_id self u
  | AssignMetaType self k => assign_meta_type self k
  end.

(** The store after a call, whether it returned or threw (a script may
    catch the failure and go on). *)
Definition exec (s : state) (c : call) : state := snd (run c s).

Definition exec_all (s : state) (cs : list call) : state :=
  foldl exec s cs.

(** The states a build script can be in. *)
Definition reachable (s : state) : Prop :=
  ∃ cs : list call, s = exec_all empty_state cs.

(** A small script: two compute resources and one internal event. *)
Definition demo_script : list call :=
  [CallCompute (VStr "fn1") (VStr "nodejs");
   CallCompute (VStr "db1") (VStr "nodejs");
   CallIevent (VStr "MyInternalEvent")].

(** The seals a compute object carries once the factory has returned it. *)
Definition sealed_resource (r : resource) : Prop :=
  meta_frozen (meta r) = true
  ∧ sealed r = {[ "meta" ]}
  ∧ cfg_sealed (config r) = {[ "id" ]}.

Definition well_sealed (s : state) : Prop :=
  ∀ l r, heap s !! l = Some (OCompute r) → sealed_resource r.

(** What a call may change of a compute object: neither its identity nor
    its seals. *)
Definition same_identity (r r' : resource) : Prop :=
  meta r' = meta r
  ∧ sealed r' = sealed r
  ∧ cfg_id (config r') = cfg_id (config r)
  ∧ cfg_sealed (config r') = cfg_sealed (config r).

(** The three shapes of a step: nothing changes; one compute object is
    rewritten in place; one object is allocated. *)
Inductive step_shape (s : state) : state → Prop :=
| shape_same : step_shape s s
| shape_update l r r' :
    heap s !! l = Some (OCompute r) →
    same_identity r r' →
    step_shape s (mkState (<[ l := OCompute r' ]> (heap s)) (uuid_calls s))
| shape_alloc_compute l r n :
    heap s !! l = None →
    sealed_resource r →
    step_shape s (mkState (<[ l := OCompute r ]> (heap s)) n)
| shape_alloc_event l e n :
    heap s !! l = None →
    step_shape s (mkState (<[ l := OEvent e ]> (heap s)) n).

(** ** Scripts that go through the builder only *)

(** The calls that go through the factories and the fluent methods, as
    opposed to the caller's direct assignments. *)
Definition is_builder_call (c : call) : bool :=
  match c with
  | AssignConfig _ _ | AssignMeta _ _ | AssignMetaId _ _
  | AssignMetaType _ _ => false
  | _ => true
  end.

(** The object a fluent method call is made on. *)
Definition method_self (c : call) : option loc :=
  match c with
  | CallVcs self _ | CallCode self _ | CallDescription self _
  | CallEnv self _ _ | CallTag self _ _ | CallOn self _
  | CallUse self _ _ _ => Some self
  | _ => None
  end.

(** The properties of [config] the fluent methods assign or rebuild
    ([vcs], [code], [description], [env], [tag]). *)
Definition setter_write (w : config_write) : bool :=
  match w with
  | WVcs _ | WCode _ | WDescription _ | WEnvironment _ _ | WTags _ _ => true
  | _ => false
  end.

(** What one call can do to the store, exactly: nothing; allocate the
    compute object the factory builds from a checked label and runtime,
    drawing one identifier; allocate an
    event; assign one property of one compute object's config other than
    [id] (a property [P] holds of); push one trigger that ends at the
    object; push one reference that starts at the object, has a truthy
    name and targets a compute object of the store. *)
Inductive call_step (P : config_write → Prop) (s : state) : state → Prop :=
| cs_same : call_step P s s
| cs_compute id runtime :
    truthy id = true →
    valid_identifier id = true →
    truthy runtime = true →
    call_step P s
      (mkState
         (<[ fresh (dom (heap s)) :=
               OCompute (new_compute id runtime (uuid_v4 (uuid_calls s))) ]>
            (heap s))
         (S (uuid_calls s)))
| cs_event e :
    call_step P s (with_object s (fresh (dom (heap s))) (OEvent e))
| cs_write self r w :
    heap s !! self = Some (OCompute r) →
    write_prop w ≠ "id" →
    P w →
    call_step P s
      (with_object s self
         (OCompute (set_config r (apply_write w (config r)))))
| cs_trigger self r ev :
    heap s !! self = Some (OCompute r) →
    call_step P s
      (with_object s self
         (OCompute (push_trigger (mkTrigger ev (VRef self)) r)))
| cs_reference self r t ct actions name :
    heap s !! self = Some (OCompute r) →
    heap s !! t = Some (OCompute ct) →
    truthy name = true →
    call_step P s
      (with_object s self
         (OCompute
            (push_reference (mkReference name (VRef self) (VRef t) actions)
               r))).

(** The states a script reaches through the builder only. *)
Definition built (s : state) : Prop :=
  ∃ cs : list call,
    forallb is_builder_call cs = true ∧ s = exec_all empty_state cs.

(** Every edge is anchored at the object that holds it: a trigger ends
    there; a reference starts there, has a truthy name, and targets a
    compute object of the store. *)
Definition anchored_trigger (l : loc) (t : Trigger) : Prop :=
  trigger_to t = VRef l.

Definition anchored_reference (s : state) (l : loc) (e : Reference) : Prop :=
  ref_from e = VRef l
  ∧ truthy (ref_name e) = true
  ∧ ∃ t ct, ref_to e = VRef t ∧ heap s !! t = Some (OCompute ct).

Definition anchored (s : state) : Prop :=
  ∀ l r,
    heap s !! l = Some (OCompute r) →
    Forall (anchored_trigger l) (cfg_triggers (config r))
    ∧ Forall (anchored_reference s l) (cfg_references (config r)).

(** ** Chains of fluent calls *)

(** One link of a chain [r.m1(...).m2(...)...]: the method and its
    arguments. *)
Inductive fluent :=
| FVcs (url : value)
| FCode (content : value)
| FDescription (text : value)
| FEnv (name val : value)
| FTag (key val : value)
| FOn (event : value)
| FUse (resource : value) (actions : list string) (alias : value).

Definition invoke (f : fluent) (self : loc) : M value :=
  match f with
  | FVcs url => vcs self url
  | FCode content => code self content
  | FDescription text => description self text
  | FEnv name val => env self name val
  | FTag key val => tag self key val
  | FOn event => on self event
  | FUse resource actions alias => use self resource actions alias
  end.

Definition to_call (self : loc) (f : fluent) : call :=
  match f with
  | FVcs url => CallVcs self url
  | FCode content => CallCode self content
  | FDescription text => CallDescription self text
  | FEnv name val => CallEnv self name val
  | FTag key val => CallTag self key val
  | FOn event => CallOn self event
  | FUse resource actions alias => CallUse self resource actions alias
  end.

(** [recv.m1(...).m2(...)...]: each method is called on what the one
    before returned. *)
Fixpoint chain (fs : list fluent) (recv : value) : M value :=
  match fs with
  | [] => mret recv
  | f :: fs' => recv' ← call_method recv (invoke f); chain fs' recv'
  end.

(** Whether a link can read [resource.config]: every link but a [use]
    whose target is not a compute object of the store. *)
Definition resolvable (s : state) (f : fluent) : bool :=
  match f with
  | FUse (VRef t) _ _ =>
      match heap s !! t with
      | Some (OCompute _) => true
      | _ => false
      end
  | FUse _ _ _ => false
  | _ => true
  end.

(** Whether the key of an [env] or [tag] link is an ordinary one, not
    ["__proto__"]. *)
Definition plain_link (f : fluent) : bool :=
  match f with
  | FEnv name _ => negb (bool_decide (js_to_string name = "__proto__"))
  | FTag key _ => negb (bool_decide (js_to_string key = "__proto__"))
  | _ => true
  end.

(** Whether the write an [env] or [tag] link makes on a resource [c] goes
    through: its key is not refused by the map it is written to. *)
Definition writable_link (s : state) (c : resource) (f : fluent) : bool :=
  match f with
  | FEnv name _ =>
      negb (refuses s (cfg_environment (config c))
              (cfg_environment_proto (config c)) (js_to_string name))
  | FTag key _ =>
      negb (refuses s (cfg_tags (config c)) (cfg_tags_proto (config c))
              (js_to_string key))
  | _ => true
  end.

(** A link that cannot throw when called on [c]: its [use] target has a
    config, its key is ordinary and its write goes through. *)
Definition safe_link (s : state) (c : resource) (f : fluent) : bool :=
  resolvable s f && plain_link f && writable_link s c f.

(** [c'] has the seals and the map prototypes of [c], and owns at least
    the environment variables and the tags [c] owns. *)
Definition keeps_maps (c c' : resource) : Prop :=
  sealed c' = sealed c
  ∧ cfg_environment_proto (config c') = cfg_environment_proto (config c)
  ∧ cfg_tags_proto (config c') = cfg_tags_proto (config c)
  ∧ (∀ k, is_Some (cfg_environment (config c) !! k) →
          is_Some (cfg_environment (config c') !! k))
  ∧ (∀ k, is_Some (cfg_tags (config c) !! k) →
          is_Some (cfg_tags (config c') !! k)).

(** ** Instance identifiers and generator calls *)

(** [idx] tells, for each compute object of the store, which call of the
    generator produced its instance identifier: a call already made, and a
    different one for each object. *)
Definition ids_indexed (s : state) (idx : loc → nat) : Prop :=
  (∀ l r,
      heap s !! l = Some (OCompute r) →
      idx l < uuid_calls s ∧ meta_id (meta r) = uuid_v4 (idx l))
  ∧ (∀ l1 l2 r1 r2,
      heap s !! l1 = Some (OCompute r1) →
      heap s !! l2 = Some (OCompute r2) →
      idx l1 = idx l2 → l1 = l2).

(** * Properties *)

(** Unfolds the sequencing of the computations down to the store
    primitives. *)
Ltac run_M :=
  unfold discard, assert, validateId, uuid, alloc, get_self, put_self,
    assign_property, throw, mbind, M_bind, mret, M_ret in *; simpl in *.

(** Unfolds a call down to the store primitives and splits on every
    test it makes. *)
Ltac split_call :=
  unfold run, discard, compute, ievent, vcs, code, description, env, tag,
    on, use, assign_config, assign_meta, assign_meta_id, assign_meta_type,
    read_config_id;
  run_M; repeat case_match; simplify_eq/=.

(** The same for one fluent method. *)
Ltac split_method :=
  unfold vcs, code, description, env, tag, on, use, assign_config,
    read_config_id;
  run_M; repeat case_match; simplify_eq/=.

Lemma fresh_loc_unused (s : state) : heap s !! fresh (dom (heap s)) = None.
Proof.
  apply not_elem_of_dom. apply is_fresh.
Qed.

Lemma compute_success (L runtime : value) (s : state) :
  truthy L = true → truthy runtime = true → valid_identifier L = true →
  compute L runtime s =
    (Return (VRef (fresh (dom (heap s)))),
     mkState
       (<[ fresh (dom (heap s)) :=
             OCompute (new_compute L runtime (uuid_v4 (uuid_calls s))) ]>
          (heap s))
       (S (uuid_calls s))).
Proof.
  intros HL Hr Hv. unfold compute. run_M. rewrite HL, Hr, Hv. simpl.
  unfold new_compute, set_sealed, set_config, set_meta, set_cfg_sealed,
    object_freeze, freeze. simpl.
  by rewrite !(right_id_L ∅ (∪)).
Qed.

(** C1. For a label that is non-empty and accepted by the identifier
    grammar, and a non-empty runtime, the compute factory returns a
    reference to a newly allocated object whose [config.id] is the label,
    whose [config.runtime] is the runtime and whose [meta.type] is the
    Compute tag. *)
Theorem compute_returns_resource (L runtime : value) (s : state) :
  truthy L = true → valid_identifier L = true → truthy runtime = true →
  ∃ (l : loc) (r : resource) (s' : state),
    compute L runtime s = (Return (VRef l), s')
    ∧ heap s !! l = None
    ∧ heap s' !! l = Some (OCompute r)
    ∧ cfg_id (config r) = L
    ∧ cfg_runtime (config r) = runtime
    ∧ meta_type (meta r) = Compute.
Proof.
  intros HL Hv Hr.
  eexists _, _, _. split; [by apply compute_success|].
  split; [apply fresh_loc_unused|].
  split; [simpl; apply lookup_insert_eq|done].
Qed.

Lemma compute_rejects_empty (L runtime : value) (s : state) :
  truthy L = false ∨ truthy runtime = false →
  compute L runtime s = (Throw MissingArgument, s).
Proof.
  intros [HL|Hr]; unfold compute; run_M.
  - by rewrite HL.
  - rewrite Hr. by destruct (truthy L).
Qed.

(** C2. With an empty label or an empty runtime the compute factory
    throws MissingArgument and leaves the state as it was: no object is
    allocated in the store and no identifier is drawn from the
    allocator. *)
Theorem compute_missing_argument (L runtime : value) (s : state) :
  truthy L = false ∨ truthy runtime = false →
  compute L runtime s = (Throw MissingArgument, s)
  ∧ heap (snd (compute L runtime s)) = heap s
  ∧ uuid_calls (snd (compute L runtime s)) = uuid_calls s.
Proof.
  intros H. by rewrite compute_rejects_empty.
Qed.

Lemma ievent_success (name : value) (s : state) :
  valid_identifier name = true →
  ievent name s =
    (Return (VRef (fresh (dom (heap s)))),
     with_object s (fresh (dom (heap s)))
       (OEvent (mkEvent InternalEvent name))).
Proof.
  intros Hv. unfold ievent. run_M. by rewrite Hv.
Qed.

Lemma compute_invalid (L runtime : value) (s : state) :
  truthy L = true → truthy runtime = true → valid_identifier L = false →
  compute L runtime s = (Throw InvalidIdentifier, s).
Proof.
  intros HL Hr Hv. unfold compute. run_M. by rewrite HL, Hr, Hv.
Qed.

Lemma ievent_invalid (name : value) (s : state) :
  valid_identifier name = false →
  ievent name s = (Throw InvalidIdentifier, s).
Proof.
  intros Hv. unfold ievent. run_M. by rewrite Hv.
Qed.

(** C3, as amended. Whatever grammar the Identifier Validator checks, as
    long as it admits no label with a space: for a non-empty label that
    fails the grammar, the compute factory called with a non-empty runtime
    and the event factory both throw InvalidIdentifier and leave the
    state as it was; so they do on the label "my-bad id-for my event";
    and for a name the grammar accepts the event factory returns a newly
    allocated event whose kind tag is InternalEvent. *)
Theorem invalid_identifier_surfaces :
  (∀ lbl : string, has_space lbl = true → valid_identifier (VStr lbl) = false) →
  (∀ L runtime s,
      truthy L = true → truthy runtime = true → valid_identifier L = false →
      compute L runtime s = (Throw InvalidIdentifier, s))
  ∧ (∀ L s,
      truthy L = true → valid_identifier L = false →
      ievent L s = (Throw InvalidIdentifier, s))
  ∧ (∀ runtime s,
      truthy runtime = true →
      compute (VStr bad_label) runtime s = (Throw InvalidIdentifier, s))
  ∧ (∀ s, ievent (VStr bad_label) s = (Throw InvalidIdentifier, s))
  ∧ (∀ name s,
      valid_identifier name = true →
      ∃ (l : loc) (e : event) (s' : state),
        ievent name s = (Return (VRef l), s')
        ∧ heap s !! l = None
        ∧ heap s' !! l = Some (OEvent e)
        ∧ ev_type e = InternalEvent).
Proof.
  intros Hspace.
  assert (Hbad : valid_identifier (VStr bad_label) = false)
    by (apply Hspace; reflexivity).
  repeat split.
  - apply compute_invalid.
  - intros L s _. apply ievent_invalid.
  - intros runtime s Hr. by apply compute_invalid.
  - intros s. by apply ievent_invalid.
  - intros name s Hv. eexists _, _, _.
    split; [by apply ievent_success|].
    split; [apply fresh_loc_unused|].
    split; [simpl; apply lookup_insert_eq|done].
Qed.

(** ** The connecting methods *)

Lemma with_object_lookup (s : state) (l : loc) (o : object) :
  heap (with_object s l o) !! l = Some o.
Proof. simpl. apply lookup_insert_eq. Qed.

Lemma with_object_lookup_ne (s : state) (l l' : loc) (o : object) :
  l ≠ l' → heap (with_object s l o) !! l' = heap s !! l'.
Proof. intros Hne. simpl. by apply lookup_insert_ne. Qed.

Lemma on_success (s : state) (r : loc) (c : resource) (e : value) :
  heap s !! r = Some (OCompute c) →
  on r e s =
    (Return (VRef r),
     with_object s r (OCompute (push_trigger (mkTrigger e (VRef r)) c))).
Proof.
  intros Hr. unfold on. run_M. by rewrite Hr.
Qed.

Lemma use_success (s : state) (r t : loc) (c ct : resource)
    (actions : list string) (alias : value) :
  heap s !! r = Some (OCompute c) →
  heap s !! t = Some (OCompute ct) →
  use r (VRef t) actions alias s =
    (Return (VRef r),
     with_object s r
       (OCompute
          (push_reference
             (mkReference (reference_name (cfg_id (config ct)) alias)
                (VRef r) (VRef t) actions) c))).
Proof.
  intros Hr Ht. unfold use, read_config_id. run_M. by rewrite Ht, Hr.
Qed.

Lemma use_no_config (s : state) (r : loc) (target : value)
    (actions : list string) (alias : value) :
  match target with
  | VRef t => ∀ ct, heap s !! t ≠ Some (OCompute ct)
  | _ => True
  end →
  use r target actions alias s = (Throw TypeError, s).
Proof.
  intros Ht. unfold use, read_config_id. run_M.
  destruct target as [| |t]; try done.
  destruct (heap s !! t) as [[ct|ev]|] eqn:E; try done.
  by destruct (Ht ct).
Qed.

Lemma push_reference_list (edge : Reference) (c : resource) :
  cfg_references (config (push_reference edge c))
  = cfg_references (config c) ++ [edge].
Proof. by destruct c as [m [] sl]. Qed.

Lemma push_trigger_list (edge : Trigger) (c : resource) :
  cfg_triggers (config (push_trigger edge c))
  = cfg_triggers (config c) ++ [edge].
Proof. by destruct c as [m [] sl]. Qed.

(** C4. When [r] is a compute object and the target [t] is an object with
    a config, [use(t, actions)] without an alias returns and leaves at [r]
    a references list that is the old one followed by exactly one
    Reference, named [t.config.id + "Ref"], from [r] itself, to [t]
    itself, allowing [actions]; with the alias "customAlias" the appended
    Reference is named "customAlias". *)
Theorem use_appends_reference (s : state) (r t : loc) (c ct : resource)
    (actions : list string) :
  heap s !! r = Some (OCompute c) →
  heap s !! t = Some (OCompute ct) →
  (∃ (s' : state) (c' : resource),
      use r (VRef t) actions VUndefined s = (Return (VRef r), s')
      ∧ heap s' !! r = Some (OCompute c')
      ∧ cfg_references (config c')
        = cfg_references (config c)
          ++ [mkReference (VStr (js_to_string (cfg_id (config ct)) +:+ "Ref"))
                (VRef r) (VRef t) actions])
  ∧ (∃ (s' : state) (c' : resource),
      use r (VRef t) actions (VStr "customAlias") s = (Return (VRef r), s')
      ∧ heap s' !! r = Some (OCompute c')
      ∧ cfg_references (config c')
        = cfg_references (config c)
          ++ [mkReference (VStr "customAlias") (VRef r) (VRef t) actions]).
Proof.
  intros Hr Ht. split; eexists _, _.
  - split; [by eapply use_success|].
    split; [apply with_object_lookup|apply push_reference_list].
  - split; [by eapply use_success|].
    split; [apply with_object_lookup|apply push_reference_list].
Qed.

(** C5. When [r] is a compute object, [on(e)] returns and leaves at [r] a
    triggers list that is the old one followed by exactly one Trigger: it
    is one longer, every earlier entry is where it was, and the new last
    entry has [from] equal to the value [e] and [to] equal to the
    reference to [r], so both ends are held by location and not copied. *)
Theorem on_appends_trigger (s : state) (r : loc) (c : resource) (e : value) :
  heap s !! r = Some (OCompute c) →
  ∃ (s' : state) (c' : resource),
    on r e s = (Return (VRef r), s')
    ∧ heap s' !! r = Some (OCompute c')
    ∧ cfg_triggers (config c')
      = cfg_triggers (config c) ++ [mkTrigger e (VRef r)]
    ∧ length (cfg_triggers (config c'))
      = S (length (cfg_triggers (config c)))
    ∧ (∀ (i : nat) (old : Trigger),
          cfg_triggers (config c) !! i = Some old →
          cfg_triggers (config c') !! i = Some old)
    ∧ (∀ l : loc, l ≠ r → heap s' !! l = heap s !! l).
Proof.
  intros Hr. eexists _, _.
  split; [by eapply on_success|].
  split; [apply with_object_lookup|].
  rewrite push_trigger_list.
  split; [done|].
  split; [rewrite length_app; simpl; lia|].
  split.
  - intros i old Hi. by apply lookup_app_l_Some.
  - intros l Hne. by apply with_object_lookup_ne.
Qed.

(** C10. When [r] is a compute object and the target [t] is an object
    with a config, [use(t, actions, "")] names the appended Reference
    [t.config.id + "Ref"], not the empty string: the alias is tested for
    truthiness. *)
Theorem use_empty_alias_falls_back (s : state) (r t : loc) (c ct : resource)
    (actions : list string) :
  heap s !! r = Some (OCompute c) →
  heap s !! t = Some (OCompute ct) →
  ∃ (s' : state) (c' : resource),
    use r (VRef t) actions (VStr "") s = (Return (VRef r), s')
    ∧ heap s' !! r = Some (OCompute c')
    ∧ cfg_references (config c')
      = cfg_references (config c)
        ++ [mkReference (VStr (js_to_string (cfg_id (config ct)) +:+ "Ref"))
              (VRef r) (VRef t) actions]
    ∧ VStr (js_to_string (cfg_id (config ct)) +:+ "Ref") ≠ VStr "".
Proof.
  intros Hr Ht. eexists _, _.
  split; [by eapply use_success|].
  split; [apply with_object_lookup|].
  split; [apply push_reference_list|].
  intros Heq. injection Heq as Heq.
  destruct (js_to_string (cfg_id (config ct))); discriminate.
Qed.

(** ** Seals are an invariant of every build script *)

Lemma apply_write_sealed (w : config_write) (c : configuration) :
  cfg_sealed (apply_write w c) = cfg_sealed c.
Proof. by destruct c, w. Qed.

Lemma apply_write_id (w : config_write) (c : configuration) :
  write_prop w ≠ "id" → cfg_id (apply_write w c) = cfg_id c.
Proof. by destruct c, w. Qed.

Lemma is_sealed_singleton (p q : string) :
  is_sealed {[ p ]} q = bool_decide (q = p).
Proof.
  unfold is_sealed. apply bool_decide_ext. set_solver.
Qed.

Lemma same_identity_write (w : config_write) (c : resource) :
  write_prop w ≠ "id" →
  same_identity c (set_config c (apply_write w (config c))).
Proof.
  intros Hw. unfold same_identity, set_config. simpl.
  by rewrite apply_write_sealed, apply_write_id.
Qed.

Lemma new_compute_sealed (id runtime : value) (u : string) :
  sealed_resource (new_compute id runtime u).
Proof. done. Qed.

Lemma assign_config_run (s : state) (r : loc) (c : resource)
    (w : config_write) :
  heap s !! r = Some (OCompute c) →
  assign_config r w s =
    if is_sealed (cfg_sealed (config c)) (write_prop w)
    then (Throw ImmutableFieldError, s)
    else (Return tt,
          with_object s r (OCompute (set_config c (apply_write w (config c))))).
Proof.
  intros Hr. unfold assign_config. run_M. rewrite Hr.
  by destruct (is_sealed _ _).
Qed.

Lemma assign_config_sealed (s : state) (r : loc) (c : resource)
    (w : config_write) :
  heap s !! r = Some (OCompute c) →
  sealed_resource c →
  assign_config r w s =
    if bool_decide (write_prop w = "id")
    then (Throw ImmutableFieldError, s)
    else (Return tt,
          with_object s r (OCompute (set_config c (apply_write w (config c))))).
Proof.
  intros Hr (_ & _ & Hs). rewrite (assign_config_run s r c w Hr).
  by rewrite Hs, is_sealed_singleton.
Qed.

Lemma assign_meta_sealed (s : state) (r : loc) (c : resource) (m : metadata) :
  heap s !! r = Some (OCompute c) →
  sealed_resource c →
  assign_meta r m s = (Throw ImmutableFieldError, s).
Proof.
  intros Hr (_ & Hs & _). unfold assign_meta. run_M.
  by rewrite Hr, Hs, is_sealed_singleton.
Qed.

Lemma assign_meta_id_sealed (s : state) (r : loc) (c : resource) (u : string) :
  heap s !! r = Some (OCompute c) →
  sealed_resource c →
  assign_meta_id r u s = (Throw ImmutableFieldError, s).
Proof.
  intros Hr (Hf & _ & _). unfold assign_meta_id. run_M.
  by rewrite Hr, Hf.
Qed.

Lemma assign_meta_type_sealed (s : state) (r : loc) (c : resource) (k : kind) :
  heap s !! r = Some (OCompute c) →
  sealed_resource c →
  assign_meta_type r k s = (Throw ImmutableFieldError, s).
Proof.
  intros Hr (Hf & _ & _). unfold assign_meta_type. run_M.
  by rewrite Hr, Hf.
Qed.

Lemma discard_snd {A} (m : M A) (s : state) : snd (discard m s) = snd (m s).
Proof. unfold discard. run_M. by destruct (m s) as [[a|e] s']. Qed.

(** [env] and [tag] on a compute object: the write is made, or it is
    refused and nothing changes. *)
Lemma env_run (s : state) (r : loc) (c : resource) (name val : value) :
  heap s !! r = Some (OCompute c) →
  env r name val s =
    match set_property s (js_to_string name) val (cfg_environment (config c))
            (cfg_environment_proto (config c)) with
    | Some after =>
        (Return (VRef r),
         with_object s r
           (OCompute
              (set_config c
                 (apply_write (WEnvironment after.1 after.2) (config c)))))
    | None => (Throw ImmutableFieldError, s)
    end.
Proof.
  intros Hr. unfold env. run_M. rewrite Hr.
  by destruct (set_property _ _ _ _ _).
Qed.

Lemma tag_run (s : state) (r : loc) (c : resource) (key val : value) :
  heap s !! r = Some (OCompute c) →
  tag r key val s =
    match set_property s (js_to_string key) val (cfg_tags (config c))
            (cfg_tags_proto (config c)) with
    | Some after =>
        (Return (VRef r),
         with_object s r
           (OCompute
              (set_config c (apply_write (WTags after.1 after.2) (config c)))))
    | None => (Throw ImmutableFieldError, s)
    end.
Proof.
  intros Hr. unfold tag. run_M. rewrite Hr.
  by destruct (set_property _ _ _ _ _).
Qed.

Lemma env_absent (s : state) (r : loc) (name val : value) :
  (∀ c, heap s !! r ≠ Some (OCompute c)) →
  env r name val s = (Throw TypeError, s).
Proof.
  intros Hr. unfold env. run_M.
  destruct (heap s !! r) as [[c|e]|]; try done. by destruct (Hr c).
Qed.

Lemma tag_absent (s : state) (r : loc) (key val : value) :
  (∀ c, heap s !! r ≠ Some (OCompute c)) →
  tag r key val s = (Throw TypeError, s).
Proof.
  intros Hr. unfold tag. run_M.
  destruct (heap s !! r) as [[c|e]|]; try done. by destruct (Hr c).
Qed.

Lemma setter_shape (s : state) (r : loc) (w : config_write) :
  well_sealed s →
  step_shape s (snd (assign_config r w s)).
Proof.
  intros Hws.
  destruct (heap s !! r) as [[c|e]|] eqn:Hr.
  - rewrite (assign_config_sealed s r c w Hr (Hws r c Hr)).
    case_bool_decide as Hw; simpl; [apply shape_same|].
    eapply shape_update; [done|by apply same_identity_write].
  - unfold assign_config. run_M. rewrite Hr. apply shape_same.
  - unfold assign_config. run_M. rewrite Hr. apply shape_same.
Qed.

Lemma update_shape (s : state) (r : loc) (f : resource → resource) :
  (∀ c, same_identity c (f c)) →
  step_shape s
    (snd ((c ← get_self r; put_self r (f c);; mret (VRef r)) s)).
Proof.
  intros Hf. run_M.
  destruct (heap s !! r) as [[c|e]|] eqn:Hr; simpl; try apply shape_same.
  by eapply shape_update.
Qed.

Lemma run_shape (s : state) (c : call) :
  well_sealed s → step_shape s (exec s c).
Proof.
  intros Hws. unfold exec.
  destruct c as [id runtime|name|self url|self content|self text
                |self name val|self key val|self event
                |self target actions alias|self w|self m|self u|self k];
    unfold run; rewrite ?discard_snd.
  - destruct (truthy id) eqn:Hid;
      [|rewrite compute_rejects_empty by auto; apply shape_same].
    destruct (truthy runtime) eqn:Hrt;
      [|rewrite compute_rejects_empty by auto; apply shape_same].
    destruct (valid_identifier id) eqn:Hv;
      [|rewrite compute_invalid by auto; apply shape_same].
    rewrite compute_success by auto. simpl.
    apply shape_alloc_compute; [apply fresh_loc_unused|done].
  - destruct (valid_identifier name) eqn:Hv;
      [|rewrite ievent_invalid by auto; apply shape_same].
    rewrite ievent_success by auto. simpl.
    apply shape_alloc_event. apply fresh_loc_unused.
  - unfold vcs. pose proof (setter_shape s self (WVcs url) Hws) as H.
    run_M. by destruct (assign_config self (WVcs url) s) as [[[]|e] s'].
  - unfold code. pose proof (setter_shape s self (WCode content) Hws) as H.
    run_M. by destruct (assign_config self (WCode content) s) as [[[]|e] s'].
  - unfold description.
    pose proof (setter_shape s self (WDescription text) Hws) as H.
    run_M.
    by destruct (assign_config self (WDescription text) s) as [[[]|e] s'].
  - destruct (heap s !! self) as [[c|e]|] eqn:Hr;
      [|rewrite env_absent by congruence; apply shape_same..].
    rewrite (env_run s self c name val Hr).
    destruct (set_property _ _ _ _ _) as [after|]; [|apply shape_same].
    eapply shape_update; [done|]. by apply same_identity_write.
  - destruct (heap s !! self) as [[c|e]|] eqn:Hr;
      [|rewrite tag_absent by congruence; apply shape_same..].
    rewrite (tag_run s self c key val Hr).
    destruct (set_property _ _ _ _ _) as [after|]; [|apply shape_same].
    eapply shape_update; [done|]. by apply same_identity_write.
  - apply (update_shape s self
             (push_trigger
                (trigger.to (trigger.from trigger.create event) (VRef self)))).
    intros c. by apply same_identity_write.
  - unfold use, read_config_id. run_M.
    destruct target as [| |t]; try apply shape_same.
    destruct (heap s !! t) as [[ct|ev]|] eqn:Ht; try apply shape_same.
    destruct (heap s !! self) as [[c|ev]|] eqn:Hr; simpl; try apply shape_same.
    eapply shape_update; [done|]. by apply same_identity_write.
  - by apply setter_shape.
  - destruct (heap s !! self) as [[c|e]|] eqn:Hr.
    + rewrite (assign_meta_sealed s self c m Hr (Hws self c Hr)). apply shape_same.
    + unfold assign_meta. run_M. rewrite Hr. apply shape_same.
    + unfold assign_meta. run_M. rewrite Hr. apply shape_same.
  - destruct (heap s !! self) as [[c|e]|] eqn:Hr.
    + rewrite (assign_meta_id_sealed s self c u Hr (Hws self c Hr)).
      apply shape_same.
    + unfold assign_meta_id. run_M. rewrite Hr. apply shape_same.
    + unfold assign_meta_id. run_M. rewrite Hr. apply shape_same.
  - destruct (heap s !! self) as [[c|e]|] eqn:Hr.
    + rewrite (assign_meta_type_sealed s self c k Hr (Hws self c Hr)).
      apply shape_same.
    + unfold assign_meta_type. run_M. rewrite Hr. apply shape_same.
    + unfold assign_meta_type. run_M. rewrite Hr. apply shape_same.
Qed.

Lemma same_identity_refl (r : resource) : same_identity r r.
Proof. done. Qed.

Lemma same_identity_trans (r1 r2 r3 : resource) :
  same_identity r1 r2 → same_identity r2 r3 → same_identity r1 r3.
Proof.
  intros (A1 & A2 & A3 & A4) (B1 & B2 & B3 & B4).
  repeat split; congruence.
Qed.

Lemma same_identity_sealed (r r' : resource) :
  same_identity r r' → sealed_resource r → sealed_resource r'.
Proof.
  intros (A1 & A2 & A3 & A4) (B1 & B2 & B3).
  repeat split; congruence.
Qed.

Lemma shape_well_sealed (s s' : state) :
  step_shape s s' → well_sealed s → well_sealed s'.
Proof.
  intros Hshape Hws.
  destruct Hshape as [|l r r' Hl Hid|l r n Hl Hr|l e n Hl]; [done|..];
    intros l' r0; simpl; rewrite lookup_insert;
    case_decide; intros Hr0; simplify_eq; eauto.
  eapply same_identity_sealed; eauto.
Qed.

Lemma shape_identity (s s' : state) (l : loc) (r : resource) :
  step_shape s s' →
  heap s !! l = Some (OCompute r) →
  ∃ r', heap s' !! l = Some (OCompute r') ∧ same_identity r r'.
Proof.
  intros Hshape Hl.
  destruct Hshape as [|l0 r0 r0' Hl0 Hid|l0 r0 n Hl0 Hr0|l0 e n Hl0].
  - exists r. split; [done|apply same_identity_refl].
  - simpl. rewrite lookup_insert. case_decide; simplify_eq; eauto.
    exists r. split; [done|apply same_identity_refl].
  - simpl. rewrite lookup_insert_ne by congruence.
    exists r. split; [done|apply same_identity_refl].
  - simpl. rewrite lookup_insert_ne by congruence.
    exists r. split; [done|apply same_identity_refl].
Qed.

Lemma exec_all_well_sealed (cs : list call) (s : state) :
  well_sealed s → well_sealed (exec_all s cs).
Proof.
  revert s. induction cs as [|c cs IH]; intros s Hws; [done|].
  simpl. apply IH. eapply shape_well_sealed; [by apply run_shape|done].
Qed.

Lemma reachable_well_sealed (s : state) : reachable s → well_sealed s.
Proof.
  intros [cs ->]. apply exec_all_well_sealed.
  intros l r Hl. simpl in Hl. by rewrite lookup_empty in Hl.
Qed.

Lemma exec_all_identity (cs : list call) (s : state) (l : loc)
    (r : resource) :
  well_sealed s →
  heap s !! l = Some (OCompute r) →
  ∃ r', heap (exec_all s cs) !! l = Some (OCompute r') ∧ same_identity r r'.
Proof.
  revert s r. induction cs as [|c cs IH]; intros s r Hws Hl.
  - exists r. split; [done|apply same_identity_refl].
  - simpl.
    pose proof (run_shape s c Hws) as Hshape.
    destruct (shape_identity s _ l r Hshape Hl) as (r1 & Hl1 & Hid1).
    destruct (IH _ r1 (shape_well_sealed _ _ Hshape Hws) Hl1)
      as (r2 & Hl2 & Hid2).
    exists r2. split; [done|]. by eapply same_identity_trans.
Qed.

(** C7. In every state a build script can reach, for every compute
    object: assigning the [meta] block, or a field of it, or [config.id],
    throws ImmutableFieldError and changes nothing; assigning any other
    property of [config] succeeds and stores the value; and after any
    further calls of the script (fluent methods, factory calls, attempted
    assignments) the object is still there with the same [meta] (instance
    identifier and kind tag) and the same [config.id]. *)
Theorem identity_is_immutable (s : state) (r : loc) (c : resource) :
  reachable s →
  heap s !! r = Some (OCompute c) →
  (∀ m, assign_meta r m s = (Throw ImmutableFieldError, s))
  ∧ (∀ u, assign_meta_id r u s = (Throw ImmutableFieldError, s))
  ∧ (∀ k, assign_meta_type r k s = (Throw ImmutableFieldError, s))
  ∧ (∀ v, assign_config r (WId v) s = (Throw ImmutableFieldError, s))
  ∧ (∀ w, write_prop w ≠ "id" →
       assign_config r w s =
         (Return tt,
          with_object s r
            (OCompute (set_config c (apply_write w (config c))))))
  ∧ (∀ cs : list call,
       ∃ c', heap (exec_all s cs) !! r = Some (OCompute c')
             ∧ meta c' = meta c
             ∧ cfg_id (config c') = cfg_id (config c)).
Proof.
  intros Hreach Hr.
  pose proof (reachable_well_sealed s Hreach) as Hws.
  pose proof (Hws r c Hr) as Hc.
  split; [intros m; by eapply assign_meta_sealed|].
  split; [intros u; by eapply assign_meta_id_sealed|].
  split; [intros k; by eapply assign_meta_type_sealed|].
  split; [intros v; by rewrite (assign_config_sealed s r c _ Hr Hc)|].
  split.
  - intros w Hw. rewrite (assign_config_sealed s r c _ Hr Hc).
    by rewrite bool_decide_eq_false_2.
  - intros cs.
    destruct (exec_all_identity cs s r c Hws Hr) as (c' & Hc' & Hm & _ & Hi & _).
    eauto.
Qed.

(** ** The configuring methods *)

Lemma setter_success (s : state) (r : loc) (c : resource) (w : config_write) :
  heap s !! r = Some (OCompute c) →
  sealed_resource c →
  write_prop w ≠ "id" →
  assign_config r w s =
    (Return tt,
     with_object s r (OCompute (set_config c (apply_write w (config c))))).
Proof.
  intros Hr Hc Hw. rewrite (assign_config_sealed s r c w Hr Hc).
  by rewrite bool_decide_eq_false_2.
Qed.

Lemma vcs_success (s : state) (r : loc) (c : resource) (url : value) :
  heap s !! r = Some (OCompute c) →
  sealed_resource c →
  vcs r url s =
    (Return (VRef r),
     with_object s r
       (OCompute (set_config c (apply_write (WVcs url) (config c))))).
Proof.
  intros Hr Hc. unfold vcs.
  pose proof (setter_success s r c (WVcs url) Hr Hc) as H.
  run_M. by rewrite H.
Qed.

Lemma code_success (s : state) (r : loc) (c : resource) (content : value) :
  heap s !! r = Some (OCompute c) →
  sealed_resource c →
  code r content s =
    (Return (VRef r),
     with_object s r
       (OCompute (set_config c (apply_write (WCode content) (config c))))).
Proof.
  intros Hr Hc. unfold code.
  pose proof (setter_success s r c (WCode content) Hr Hc) as H.
  run_M. by rewrite H.
Qed.

Lemma description_success (s : state) (r : loc) (c : resource)
    (text : value) :
  heap s !! r = Some (OCompute c) →
  sealed_resource c →
  description r text s =
    (Return (VRef r),
     with_object s r
       (OCompute (set_config c (apply_write (WDescription text) (config c))))).
Proof.
  intros Hr Hc. unfold description.
  pose proof (setter_success s r c (WDescription text) Hr Hc) as H.
  run_M. by rewrite H.
Qed.

Lemma accepts_set_property (s : state) (key : string) (v : value)
    (o : gmap string value) (proto : option loc) :
  accepts s o proto key = true →
  ∃ after, set_property s key v o proto = Some after.
Proof.
  unfold accepts, set_property. intros Hacc.
  case_decide as Hk.
  - destruct v; eauto.
  - rewrite bool_decide_eq_false_2 in Hacc by done. simpl in Hacc.
    apply negb_true_iff in Hacc. rewrite Hacc. eauto.
Qed.

Lemma set_property_plain (s : state) (key : string) (v : value)
    (o : gmap string value) (proto : option loc) :
  key ≠ "__proto__" →
  refuses s o proto key = false →
  set_property s key v o proto = Some (<[ key := v ]> o, proto).
Proof.
  intros Hk Hacc. unfold set_property.
  by rewrite decide_False, Hacc by done.
Qed.

Lemma env_success (s : state) (r : loc) (c : resource) (name val : value)
    (after : gmap string value * option loc) :
  heap s !! r = Some (OCompute c) →
  set_property s (js_to_string name) val (cfg_environment (config c))
    (cfg_environment_proto (config c)) = Some after →
  env r name val s =
    (Return (VRef r),
     with_object s r
       (OCompute
          (set_config c
             (apply_write (WEnvironment after.1 after.2) (config c))))).
Proof.
  intros Hr Hset. by rewrite (env_run s r c name val Hr), Hset.
Qed.

Lemma tag_success (s : state) (r : loc) (c : resource) (key val : value)
    (after : gmap string value * option loc) :
  heap s !! r = Some (OCompute c) →
  set_property s (js_to_string key) val (cfg_tags (config c))
    (cfg_tags_proto (config c)) = Some after →
  tag r key val s =
    (Return (VRef r),
     with_object s r
       (OCompute
          (set_config c (apply_write (WTags after.1 after.2) (config c))))).
Proof.
  intros Hr Hset. by rewrite (tag_run s r c key val Hr), Hset.
Qed.

(** In a well sealed store only the sealed names [meta] (on a compute
    object) and [_meta] (on an event) are read-only. *)
Lemma read_only_sealed_name (s : state) (l : loc) (key : string) :
  well_sealed s →
  read_only s l key = true →
  key = "meta" ∨ key = "_meta".
Proof.
  intros Hws. unfold read_only.
  destruct (heap s !! l) as [[p|e]|] eqn:Hl; [| |done].
  - destruct (Hws l p Hl) as (_ & Hs & _). rewrite Hs, is_sealed_singleton.
    intros Hk. apply bool_decide_eq_true in Hk. by left.
  - unfold event_sealed. rewrite is_sealed_singleton.
    intros Hk. apply bool_decide_eq_true in Hk. by right.
Qed.

Lemma accepts_unsealed_name (s : state) (o : gmap string value)
    (proto : option loc) (key : string) :
  well_sealed s →
  key ≠ "meta" → key ≠ "_meta" →
  accepts s o proto key = true.
Proof.
  intros Hws H1 H2. unfold accepts, refuses.
  destruct (bool_decide (key = "__proto__")); [done|]. simpl.
  destruct (o !! key); [done|]. destruct proto as [l|]; [|done].
  destruct (read_only s l key) eqn:Hro; [|done].
  by destruct (read_only_sealed_name s l key Hws Hro).
Qed.

Lemma method_returns_self (f : fluent) (r : loc) (s : state) (v : value) :
  fst (invoke f r s) = Return v → v = VRef r.
Proof.
  destruct f; simpl; split_method; intros; simplify_eq/=; done.
Qed.

(** C6. For every compute object [r], every fluent method ([vcs], [code],
    [description], [env], [tag], [on], [use]), any arguments and any
    state, the value the method returns is the reference to [r]; so is the
    value of the chain [r.tag(a, b).env(x, y)]. And the methods do return:
    in every state a build script can reach, [vcs], [code], [description]
    and [on] for any arguments, [env] and [tag] whenever the write to the
    map goes through, [use] whenever its target is an object with a
    config, and the chain [r.tag("a", "b").env("x", "y")] always. *)
Theorem fluent_methods_return_self (s : state) (r : loc) (c : resource) :
  reachable s →
  heap s !! r = Some (OCompute c) →
  (∀ (f : fluent) (v : value), fst (invoke f r s) = Return v → v = VRef r)
  ∧ (∀ a b x y v,
       fst ((recv ← call_method (VRef r) (λ self, tag self a b);
             call_method recv (λ self, env self x y)) s)
       = Return v →
       v = VRef r)
  ∧ (∀ url, fst (vcs r url s) = Return (VRef r))
  ∧ (∀ content, fst (code r content s) = Return (VRef r))
  ∧ (∀ text, fst (description r text s) = Return (VRef r))
  ∧ (∀ event, fst (on r event s) = Return (VRef r))
  ∧ (∀ name val,
       accepts s (cfg_environment (config c))
         (cfg_environment_proto (config c)) (js_to_string name) = true →
       fst (env r name val s) = Return (VRef r))
  ∧ (∀ key val,
       accepts s (cfg_tags (config c)) (cfg_tags_proto (config c))
         (js_to_string key) = true →
       fst (tag r key val s) = Return (VRef r))
  ∧ (∀ t ct actions alias,
       heap s !! t = Some (OCompute ct) →
       fst (use r (VRef t) actions alias s) = Return (VRef r))
  ∧ fst ((recv ← call_method (VRef r)
                   (λ self, tag self (VStr "a") (VStr "b"));
          call_method recv (λ self, env self (VStr "x") (VStr "y"))) s)
    = Return (VRef r).
Proof.
  intros Hreach Hr.
  pose proof (reachable_well_sealed s Hreach) as Hws.
  pose proof (Hws r c Hr) as Hc.
  split; [intros f v; apply method_returns_self|].
  split.
  { intros a b x y v. unfold call_method, mbind, M_bind.
    destruct (tag r a b s) as [[recv|e] s1] eqn:Htag; [|done].
    assert (recv = VRef r) as ->
      by (apply (method_returns_self (FTag a b) r s); simpl; by rewrite Htag).
    apply (method_returns_self (FEnv x y) r s1). }
  split; [intros; by rewrite (vcs_success s r c)|].
  split; [intros; by rewrite (code_success s r c)|].
  split; [intros; by rewrite (description_success s r c)|].
  split; [intros; by rewrite (on_success s r c)|].
  split.
  { intros name val Hacc.
    destruct (accepts_set_property s _ val _ _ Hacc) as [after Hset].
    by rewrite (env_success s r c name val after Hr Hset). }
  split.
  { intros key val Hacc.
    destruct (accepts_set_property s _ val _ _ Hacc) as [after Hset].
    by rewrite (tag_success s r c key val after Hr Hset). }
  split; [intros; by rewrite (use_success s r t c ct)|].
  unfold call_method, mbind, M_bind.
  destruct (accepts_set_property s "a" (VStr "b") (cfg_tags (config c))
              (cfg_tags_proto (config c))) as [after Hset];
    [by apply accepts_unsealed_name|].
  rewrite (tag_success s r c (VStr "a") (VStr "b") after Hr Hset).
  set (c1 := set_config c (apply_write (WTags after.1 after.2) (config c))).
  set (s1 := with_object s r (OCompute c1)).
  assert (Hws1 : well_sealed s1).
  { eapply shape_well_sealed; [|done].
    eapply shape_update; [done|]. by apply same_identity_write. }
  destruct (accepts_set_property s1 "x" (VStr "y")
              (cfg_environment (config c1))
              (cfg_environment_proto (config c1))) as [after1 Hset1];
    [by apply accepts_unsealed_name|].
  by rewrite (env_success s1 r c1 (VStr "x") (VStr "y") after1
                (with_object_lookup s r _) Hset1).
Qed.

(** C8. In every state a build script can reach, for every compute
    object [r]: [vcs(u)] then [code(k)], and [code(k)] then [vcs(u)], both
    return [r] and leave [config.vcs] equal to [u] and [config.code] equal
    to [k] together; [code] alone leaves [config.vcs] as it was and [vcs]
    alone leaves [config.code] as it was, and neither fails because the
    other field is set. *)
Theorem vcs_and_code_coexist (s : state) (r : loc) (c : resource)
    (u k : value) :
  reachable s →
  heap s !! r = Some (OCompute c) →
  (∃ s' c',
      (vcs r u;; code r k) s = (Return (VRef r), s')
      ∧ heap s' !! r = Some (OCompute c')
      ∧ cfg_vcs (config c') = Some u
      ∧ cfg_code (config c') = Some k)
  ∧ (∃ s' c',
      (code r k;; vcs r u) s = (Return (VRef r), s')
      ∧ heap s' !! r = Some (OCompute c')
      ∧ cfg_vcs (config c') = Some u
      ∧ cfg_code (config c') = Some k)
  ∧ (∃ s' c',
      code r k s = (Return (VRef r), s')
      ∧ heap s' !! r = Some (OCompute c')
      ∧ cfg_vcs (config c') = cfg_vcs (config c)
      ∧ cfg_code (config c') = Some k)
  ∧ (∃ s' c',
      vcs r u s = (Return (VRef r), s')
      ∧ heap s' !! r = Some (OCompute c')
      ∧ cfg_code (config c') = cfg_code (config c)
      ∧ cfg_vcs (config c') = Some u).
Proof.
  intros Hreach Hr.
  pose proof (reachable_well_sealed s Hreach r c Hr) as Hc.
  assert (Hv : sealed_resource
                 (set_config c (apply_write (WVcs u) (config c))))
    by (eapply same_identity_sealed; [by apply same_identity_write|done]).
  assert (Hk : sealed_resource
                 (set_config c (apply_write (WCode k) (config c))))
    by (eapply same_identity_sealed; [by apply same_identity_write|done]).
  split; [|split; [|split]]; eexists _, _.
  - unfold mbind, M_bind. rewrite (vcs_success s r c u Hr Hc).
    erewrite code_success; [|apply with_object_lookup|done].
    split; [done|]. split; [apply with_object_lookup|].
    by destruct c as [m [] sl].
  - unfold mbind, M_bind. rewrite (code_success s r c k Hr Hc).
    erewrite vcs_success; [|apply with_object_lookup|done].
    split; [done|]. split; [apply with_object_lookup|].
    by destruct c as [m [] sl].
  - rewrite (code_success s r c k Hr Hc).
    split; [done|]. split; [apply with_object_lookup|].
    by destruct c as [m [] sl].
  - rewrite (vcs_success s r c u Hr Hc).
    split; [done|]. split; [apply with_object_lookup|].
    by destruct c as [m [] sl].
Qed.

(** ** The instance identifier *)

(** The identifier a successful factory call stores is the next one of
    the generator, whatever the label and the runtime are. *)
Lemma compute_instance_id (L runtime : value) (s : state) :
  truthy L = true → valid_identifier L = true → truthy runtime = true →
  ∃ l r s',
    compute L runtime s = (Return (VRef l), s')
    ∧ heap s' !! l = Some (OCompute r)
    ∧ meta_id (meta r) = uuid_v4 (uuid_calls s)
    ∧ uuid_calls s' = S (uuid_calls s).
Proof.
  intros HL Hv Hr. eexists _, _, _.
  split; [by apply compute_success|].
  split; [simpl; apply lookup_insert_eq|done].
Qed.

(** * Further properties of the builder *)

(** ** The configuring methods, field by field *)

Lemma with_object_twice (s : state) (l : loc) (o1 o2 : object) :
  with_object (with_object s l o1) l o2 = with_object s l o2.
Proof.
  unfold with_object. simpl. by rewrite insert_insert_eq.
Qed.

Lemma read_only_with_object (s : state) (r l : loc) (c c' : resource)
    (key : string) :
  heap s !! r = Some (OCompute c) →
  sealed c' = sealed c →
  read_only (with_object s r (OCompute c')) l key = read_only s l key.
Proof.
  intros Hr Hs. unfold read_only. simpl. rewrite lookup_insert.
  case_decide as Hl; [|done]. subst l. by rewrite Hr, Hs.
Qed.

Lemma refuses_with_object (s : state) (r : loc) (c c' : resource)
    (o : gmap string value) (proto : option loc) (key : string) :
  heap s !! r = Some (OCompute c) →
  sealed c' = sealed c →
  refuses (with_object s r (OCompute c')) o proto key = refuses s o proto key.
Proof.
  intros Hr Hs. unfold refuses.
  destruct (o !! key); [done|]. destruct proto as [l|]; [|done].
  by apply (read_only_with_object s r l c c').
Qed.

Lemma set_property_with_object (s : state) (r : loc) (c c' : resource)
    (key : string) (v : value) (o : gmap string value) (proto : option loc) :
  heap s !! r = Some (OCompute c) →
  sealed c' = sealed c →
  set_property (with_object s r (OCompute c')) key v o proto
  = set_property s key v o proto.
Proof.
  intros Hr Hs. unfold set_property.
  by rewrite (refuses_with_object s r c c').
Qed.

Lemma set_property_refused (s : state) (key : string) (v : value)
    (o : gmap string value) (proto : option loc) :
  key ≠ "__proto__" →
  refuses s o proto key = true →
  set_property s key v o proto = None.
Proof.
  intros Hk Href. unfold set_property.
  by rewrite decide_False, Href by done.
Qed.



Lemma env_plain (s : state) (r : loc) (c : resource) (name val : value) :
  heap s !! r = Some (OCompute c) →
  js_to_string name ≠ "__proto__" →
  refuses s (cfg_environment (config c)) (cfg_environment_proto (config c))
    (js_to_string name) = false →
  env r name val s =
    (Return (VRef r),
     with_object s r
       (OCompute
          (set_config c
             (apply_write
                (WEnvironment
                   (<[ js_to_string name := val ]> (cfg_environment (config c)))
                   (cfg_environment_proto (config c))) (config c))))).
Proof.
  intros Hr Hk Href.
  by rewrite (env_run s r c name val Hr), set_property_plain.
Qed.

Lemma tag_plain (s : state) (r : loc) (c : resource) (key val : value) :
  heap s !! r = Some (OCompute c) →
  js_to_string key ≠ "__proto__" →
  refuses s (cfg_tags (config c)) (cfg_tags_proto (config c))
    (js_to_string key) = false →
  tag r key val s =
    (Return (VRef r),
     with_object s r
       (OCompute
          (set_config c
             (apply_write
                (WTags (<[ js_to_string key := val ]> (cfg_tags (config c)))
                   (cfg_tags_proto (config c))) (config c))))).
Proof.
  intros Hr Hk Href.
  by rewrite (tag_run s r c key val Hr), set_property_plain.
Qed.

(** X1. [env(name, value)] on a compute object, for a name whose string
    form is not ["__proto__"]: when the write goes through, the
    environment afterwards maps that key to [value], every other key, the
    prototype of the environment, the tags, the triggers and the
    references are as before, and the object itself is returned; when the
    write is refused (the key is not an own property and is read-only on
    a replaced prototype), the call throws and changes nothing. *)
Theorem env_sets_variable (s : state) (r : loc) (c : resource)
    (name val : value) :
  heap s !! r = Some (OCompute c) →
  js_to_string name ≠ "__proto__" →
  (refuses s (cfg_environment (config c)) (cfg_environment_proto (config c))
     (js_to_string name) = false →
   ∃ (s' : state) (c' : resource),
     env r name val s = (Return (VRef r), s')
     ∧ heap s' !! r = Some (OCompute c')
     ∧ cfg_environment (config c') !! js_to_string name = Some val
     ∧ (∀ k : string,
           k ≠ js_to_string name →
           cfg_environment (config c') !! k = cfg_environment (config c) !! k)
     ∧ cfg_environment_proto (config c') = cfg_environment_proto (config c)
     ∧ cfg_tags (config c') = cfg_tags (config c)
     ∧ cfg_tags_proto (config c') = cfg_tags_proto (config c)
     ∧ cfg_triggers (config c') = cfg_triggers (config c)
     ∧ cfg_references (config c') = cfg_references (config c))
  ∧ (refuses s (cfg_environment (config c))
       (cfg_environment_proto (config c)) (js_to_string name) = true →
     ∃ e : error, env r name val s = (Throw e, s)).
Proof.
  intros Hr Hk. split; intros Href.
  - eexists _, _.
    split; [by apply env_plain|].
    split; [apply with_object_lookup|].
    destruct c as [m [] sl]; simpl.
    split; [apply lookup_insert_eq|].
    split; [|done].
    intros k Hne. by apply lookup_insert_ne.
  - exists ImmutableFieldError.
    by rewrite (env_run s r c name val Hr), set_property_refused.
Qed.


Lemma apply_write_tags_environment (c : configuration)
    (tg e : gmap string value) (tp ep : option loc) :
  apply_write (WEnvironment e ep) (apply_write (WTags tg tp) c)
  = apply_write (WTags tg tp) (apply_write (WEnvironment e ep) c).
Proof. by destruct c. Qed.

(** X3. [tag(key, value)] on a compute object, for a key whose string
    form is not ["__proto__"] and whose write goes through, stores [value]
    under that key and leaves every other tag, the prototype of the tags
    and the whole environment as they were; and a [tag] call and an [env]
    call on the same object whose writes both go through commute,
    whatever their keys. *)
Theorem tag_sets_tag (s : state) (r : loc) (c : resource)
    (key val name x : value) :
  heap s !! r = Some (OCompute c) →
  (js_to_string key ≠ "__proto__" →
   refuses s (cfg_tags (config c)) (cfg_tags_proto (config c))
     (js_to_string key) = false →
   ∃ (s' : state) (c' : resource),
     tag r key val s = (Return (VRef r), s')
     ∧ heap s' !! r = Some (OCompute c')
     ∧ cfg_tags (config c') !! js_to_string key = Some val
     ∧ (∀ k : string,
           k ≠ js_to_string key →
           cfg_tags (config c') !! k = cfg_tags (config c) !! k)
     ∧ cfg_tags_proto (config c') = cfg_tags_proto (config c)
     ∧ cfg_environment (config c') = cfg_environment (config c)
     ∧ cfg_environment_proto (config c') = cfg_environment_proto (config c))
  ∧ (accepts s (cfg_tags (config c)) (cfg_tags_proto (config c))
       (js_to_string key) = true →
     accepts s (cfg_environment (config c))
       (cfg_environment_proto (config c)) (js_to_string name) = true →
     (tag r key val;; env r name x) s = (env r name x;; tag r key val) s).
Proof.
  intros Hr. split.
  - intros Hk Href. eexists _, _.
    split; [by apply tag_plain|].
    split; [apply with_object_lookup|].
    destruct c as [m [] sl]; simpl.
    split; [apply lookup_insert_eq|].
    split; [|done].
    intros k Hne. by apply lookup_insert_ne.
  - intros Htag Henv. unfold mbind, M_bind.
    destruct (accepts_set_property s _ val _ _ Htag) as [at_ Hat].
    destruct (accepts_set_property s _ x _ _ Henv) as [ae Hae].
    rewrite (tag_success s r c key val at_ Hr Hat).
    rewrite (env_success s r c name x ae Hr Hae).
    erewrite (env_success _ r _ name x ae); [|apply with_object_lookup|].
    + erewrite (tag_success _ r _ key val at_); [|apply with_object_lookup|].
      * rewrite !with_object_twice. unfold set_config. simpl.
        by rewrite apply_write_tags_environment.
      * rewrite (set_property_with_object s r c _ _ _ _ _ Hr) by done.
        by destruct c as [m [] sl].
    + rewrite (set_property_with_object s r c _ _ _ _ _ Hr) by done.
      by destruct c as [m [] sl].
Qed.


(** X4. In every state a build script can reach, [description(text)] on a
    compute object returns it with [config.description] set to [text] and
    every other part of the object as it was; a second call replaces the
    text of the first. *)
Theorem description_sets_text (s : state) (r : loc) (c : resource)
    (text text' : value) :
  reachable s →
  heap s !! r = Some (OCompute c) →
  (∃ (s' : state) (c' : resource),
      description r text s = (Return (VRef r), s')
      ∧ heap s' !! r = Some (OCompute c')
      ∧ cfg_description (config c') = Some text
      ∧ cfg_vcs (config c') = cfg_vcs (config c)
      ∧ cfg_code (config c') = cfg_code (config c)
      ∧ cfg_runtime (config c') = cfg_runtime (config c)
      ∧ cfg_environment (config c') = cfg_environment (config c)
      ∧ cfg_tags (config c') = cfg_tags (config c)
      ∧ cfg_triggers (config c') = cfg_triggers (config c)
      ∧ cfg_references (config c') = cfg_references (config c)
      ∧ meta c' = meta c)
  ∧ (description r text;; description r text') s = description r text' s.
Proof.
  intros Hreach Hr.
  pose proof (reachable_well_sealed s Hreach r c Hr) as Hc.
  split.
  - eexists _, _.
    split; [by apply description_success|].
    split; [apply with_object_lookup|].
    by destruct c as [m [] sl].
  - unfold mbind, M_bind.
    rewrite (description_success s r c text Hr Hc).
    erewrite description_success; [|apply with_object_lookup|].
    + rewrite (description_success s r c text' Hr Hc), with_object_twice.
      by destruct c as [m [] sl].
    + eapply same_identity_sealed; [by apply same_identity_write|done].
Qed.

(** ** The factory and the store *)

(** X5. A successful [compute] call allocates one new object and touches
    nothing else: the returned location was unused, every object that was
    in the store is still there unchanged, and the new resource starts
    with no triggers, no references, an empty environment, no tags, and
    neither [vcs], [code] nor [description] set. *)
Theorem compute_allocates_empty_resource (L runtime : value) (s : state) :
  truthy L = true → valid_identifier L = true → truthy runtime = true →
  ∃ (l : loc) (r : resource) (s' : state),
    compute L runtime s = (Return (VRef l), s')
    ∧ heap s !! l = None
    ∧ heap s' !! l = Some (OCompute r)
    ∧ (∀ l' : loc, l' ≠ l → heap s' !! l' = heap s !! l')
    ∧ (∀ (l' : loc) (o : object),
          heap s !! l' = Some o → heap s' !! l' = Some o)
    ∧ cfg_triggers (config r) = []
    ∧ cfg_references (config r) = []
    ∧ cfg_environment (config r) = ∅
    ∧ cfg_tags (config r) = ∅
    ∧ cfg_vcs (config r) = None
    ∧ cfg_code (config r) = None
    ∧ cfg_description (config r) = None.
Proof.
  intros HL Hv Hr. eexists _, _, _.
  split; [by apply compute_success|].
  split; [apply fresh_loc_unused|].
  split; [simpl; apply lookup_insert_eq|].
  split; [intros l' Hne; simpl; by apply lookup_insert_ne|].
  split; [|done].
  intros l' o Hl'. simpl. rewrite lookup_insert_ne; [done|].
  intros <-. by rewrite fresh_loc_unused in Hl'.
Qed.

(** X6. The factory keeps no registry of labels: two successful calls
    with the same label both succeed and return two different objects,
    both in the store afterwards and both with that label as
    [config.id]. *)
Theorem compute_accepts_duplicate_label (L rt1 rt2 : value) (s : state) :
  truthy L = true → valid_identifier L = true →
  truthy rt1 = true → truthy rt2 = true →
  ∃ (l1 l2 : loc) (r1 r2 : resource) (s' : state),
    (a ← compute L rt1; b ← compute L rt2; mret (a, b)) s
    = (Return (VRef l1, VRef l2), s')
    ∧ l1 ≠ l2
    ∧ heap s' !! l1 = Some (OCompute r1)
    ∧ heap s' !! l2 = Some (OCompute r2)
    ∧ cfg_id (config r1) = L
    ∧ cfg_id (config r2) = L
    ∧ cfg_runtime (config r1) = rt1
    ∧ cfg_runtime (config r2) = rt2.
Proof.
  intros HL Hv H1 H2.
  set (l1 := fresh (dom (heap s))).
  set (s1 := mkState
               (<[ l1 := OCompute (new_compute L rt1 (uuid_v4 (uuid_calls s))) ]>
                  (heap s)) (S (uuid_calls s))).
  assert (Hne : l1 ≠ fresh (dom (heap s1))).
  { intros Heq. pose proof (fresh_loc_unused s1) as Hf.
    rewrite <- Heq in Hf. simpl in Hf. by rewrite lookup_insert_eq in Hf. }
  exists l1, (fresh (dom (heap s1))). eexists _, _, _.
  split.
  { unfold mbind, M_bind. rewrite compute_success by done.
    fold l1. fold s1. rewrite compute_success by done. reflexivity. }
  split; [done|].
  split; [simpl; rewrite lookup_insert_ne by done; apply lookup_insert_eq|].
  split; [simpl; apply lookup_insert_eq|done].
Qed.

(** ** What a call can and cannot do *)

Lemma reference_name_truthy (target_id alias : value) :
  truthy (reference_name target_id alias) = true.
Proof.
  unfold reference_name. destruct (truthy alias) eqn:Ha; [done|].
  simpl. by destruct (js_to_string target_id).
Qed.

Lemma run_call_step (s : state) (c : call) :
  well_sealed s →
  call_step (λ w, is_builder_call c = true → setter_write w = true)
    s (exec s c).
Proof.
  intros Hws. unfold exec.
  destruct c as [id runtime|name|self url|self content|self text
                |self name val|self key val|self event
                |self target actions alias|self w|self m|self u|self k];
    unfold run; rewrite ?discard_snd.
  - destruct (truthy id) eqn:Hid;
      [|rewrite compute_rejects_empty by auto; apply cs_same].
    destruct (truthy runtime) eqn:Hrt;
      [|rewrite compute_rejects_empty by auto; apply cs_same].
    destruct (valid_identifier id) eqn:Hv;
      [|rewrite compute_invalid by auto; apply cs_same].
    rewrite compute_success by auto. by apply cs_compute.
  - destruct (valid_identifier name) eqn:Hv;
      [|rewrite ievent_invalid by auto; apply cs_same].
    rewrite ievent_success by auto. apply cs_event.
  - destruct (heap s !! self) as [[r|e]|] eqn:Hr.
    + rewrite (vcs_success s self r url Hr (Hws self r Hr)).
      by apply cs_write.
    + unfold vcs, assign_config. run_M. rewrite Hr. apply cs_same.
    + unfold vcs, assign_config. run_M. rewrite Hr. apply cs_same.
  - destruct (heap s !! self) as [[r|e]|] eqn:Hr.
    + rewrite (code_success s self r content Hr (Hws self r Hr)).
      by apply cs_write.
    + unfold code, assign_config. run_M. rewrite Hr. apply cs_same.
    + unfold code, assign_config. run_M. rewrite Hr. apply cs_same.
  - destruct (heap s !! self) as [[r|e]|] eqn:Hr.
    + rewrite (description_success s self r text Hr (Hws self r Hr)).
      by apply cs_write.
    + unfold description, assign_config. run_M. rewrite Hr. apply cs_same.
    + unfold description, assign_config. run_M. rewrite Hr. apply cs_same.
  - destruct (heap s !! self) as [[r|e]|] eqn:Hr.
    + rewrite (env_run s self r name val Hr).
      destruct (set_property _ _ _ _ _) as [after|]; [|apply cs_same].
      by apply cs_write.
    + unfold env. run_M. rewrite Hr. apply cs_same.
    + unfold env. run_M. rewrite Hr. apply cs_same.
  - destruct (heap s !! self) as [[r|e]|] eqn:Hr.
    + rewrite (tag_run s self r key val Hr).
      destruct (set_property _ _ _ _ _) as [after|]; [|apply cs_same].
      by apply cs_write.
    + unfold tag. run_M. rewrite Hr. apply cs_same.
    + unfold tag. run_M. rewrite Hr. apply cs_same.
  - destruct (heap s !! self) as [[r|e]|] eqn:Hr.
    + rewrite (on_success s self r event Hr). by apply cs_trigger.
    + unfold on. run_M. rewrite Hr. apply cs_same.
    + unfold on. run_M. rewrite Hr. apply cs_same.
  - destruct target as [| |t];
      try (rewrite use_no_config by done; apply cs_same).
    destruct (heap s !! t) as [[ct|ev]|] eqn:Ht;
      try (rewrite use_no_config by (simpl; congruence); apply cs_same).
    destruct (heap s !! self) as [[r|e]|] eqn:Hr.
    + rewrite (use_success s self t r ct actions alias Hr Ht).
      eapply cs_reference; [done|done|apply reference_name_truthy].
    + unfold use, read_config_id. run_M. rewrite Ht, Hr. apply cs_same.
    + unfold use, read_config_id. run_M. rewrite Ht, Hr. apply cs_same.
  - destruct (heap s !! self) as [[r|e]|] eqn:Hr.
    + rewrite (assign_config_sealed s self r w Hr (Hws self r Hr)).
      case_bool_decide as Hw; simpl; [apply cs_same|].
      by apply cs_write.
    + unfold assign_config. run_M. rewrite Hr. apply cs_same.
    + unfold assign_config. run_M. rewrite Hr. apply cs_same.
  - destruct (heap s !! self) as [[r|e]|] eqn:Hr.
    + rewrite (assign_meta_sealed s self r m Hr (Hws self r Hr)).
      apply cs_same.
    + unfold assign_meta. run_M. rewrite Hr. apply cs_same.
    + unfold assign_meta. run_M. rewrite Hr. apply cs_same.
  - destruct (heap s !! self) as [[r|e]|] eqn:Hr.
    + rewrite (assign_meta_id_sealed s self r u Hr (Hws self r Hr)).
      apply cs_same.
    + unfold assign_meta_id. run_M. rewrite Hr. apply cs_same.
    + unfold assign_meta_id. run_M. rewrite Hr. apply cs_same.
  - destruct (heap s !! self) as [[r|e]|] eqn:Hr.
    + rewrite (assign_meta_type_sealed s self r k Hr (Hws self r Hr)).
      apply cs_same.
    + unfold assign_meta_type. run_M. rewrite Hr. apply cs_same.
    + unfold assign_meta_type. run_M. rewrite Hr. apply cs_same.
Qed.

(** X7. A call that throws leaves the state exactly as it was, whatever
    the call (a factory, a fluent method or a direct assignment): every
    check comes before the first write, so no failure is half applied. *)
Theorem failure_changes_nothing (c : call) (s : state) (e : error) :
  fst (run c s) = Throw e → snd (run c s) = s.
Proof.
  destruct c; split_call; intros; simplify_eq/=; done.
Qed.

(** X8. A fluent method call is confined to the object it is made on:
    every other location of the store holds what it held, no location is
    allocated or freed, and no identifier is drawn from the allocator. *)
Theorem method_touches_only_self (c : call) (self : loc) (s : state) :
  method_self c = Some self →
  (∀ l : loc, l ≠ self → heap (exec s c) !! l = heap s !! l)
  ∧ dom (heap (exec s c)) = dom (heap s)
  ∧ uuid_calls (exec s c) = uuid_calls s.
Proof.
  intros Hself. unfold exec.
  destruct c; simplify_eq/=; split_call;
    (split; [intros l' Hne'; by rewrite ?lookup_insert_ne by done|]);
    (split; [|done]);
    try done;
    apply dom_insert_lookup_L; eauto.
Qed.

(** X9. On a compute object, [use] succeeds exactly when its target is a
    reference to an object with a config; otherwise it throws a TypeError
    and changes nothing, alias or no alias, because [resource.config.id]
    is read before the alias is looked at. *)
Theorem use_succeeds_iff_target_has_config (s : state) (r : loc)
    (c : resource) (target : value) (actions : list string) (alias : value) :
  heap s !! r = Some (OCompute c) →
  (fst (use r target actions alias s) = Return (VRef r)
   ↔ ∃ t ct, target = VRef t ∧ heap s !! t = Some (OCompute ct))
  ∧ ((¬ ∃ t ct, target = VRef t ∧ heap s !! t = Some (OCompute ct)) →
     use r target actions alias s = (Throw TypeError, s)).
Proof.
  intros Hr.
  assert (Hfail :
    (¬ ∃ t ct, target = VRef t ∧ heap s !! t = Some (OCompute ct)) →
    use r target actions alias s = (Throw TypeError, s)).
  { intros Hno. apply use_no_config.
    destruct target as [| |t]; try done.
    intros ct Ht. apply Hno. eauto. }
  split; [|done]. split.
  - intros Hok.
    destruct target as [| |t];
      try (rewrite Hfail in Hok; [done|by intros (? & ? & ? & _)]).
    destruct (heap s !! t) as [[ct|ev]|] eqn:Ht; [by eauto|..];
      (rewrite Hfail in Hok; [done|]);
      intros (t' & ct' & Heq & Ht'); simplify_eq.
  - intros (t & ct & -> & Ht). by rewrite (use_success s r t c ct).
Qed.

(** ** Edges are appended, in order, and never dropped *)

Lemma exec_on (s : state) (r : loc) (c : resource) (e : value) :
  heap s !! r = Some (OCompute c) →
  exec s (CallOn r e)
  = with_object s r (OCompute (push_trigger (mkTrigger e (VRef r)) c)).
Proof.
  intros Hr. unfold exec, run. rewrite discard_snd.
  by rewrite (on_success s r c e Hr).
Qed.

(** X10. Calling [on] for a list of events, one after the other, on a
    compute object leaves its triggers list equal to the old one followed
    by one trigger per event, in call order, each ending at the object;
    no event is validated or skipped, and the references are untouched. *)
Theorem on_appends_in_order (es : list value) (s : state) (r : loc)
    (c : resource) :
  heap s !! r = Some (OCompute c) →
  ∃ c' : resource,
    heap (exec_all s (CallOn r <$> es)) !! r = Some (OCompute c')
    ∧ cfg_triggers (config c')
      = cfg_triggers (config c) ++ ((λ e, mkTrigger e (VRef r)) <$> es)
    ∧ cfg_references (config c') = cfg_references (config c)
    ∧ meta c' = meta c.
Proof.
  revert s c. induction es as [|e es IH]; intros s c Hr.
  - exists c. by rewrite app_nil_r.
  - simpl. rewrite (exec_on s r c e Hr).
    destruct (IH _ _ (with_object_lookup s r
                        (OCompute (push_trigger (mkTrigger e (VRef r)) c))))
      as (c' & Hc' & Ht & Hrf & Hm).
    exists c'. split; [done|].
    rewrite Ht, Hrf, Hm, push_trigger_list.
    split; [by rewrite <- app_assoc|].
    by destruct c as [m [] sl].
Qed.

Lemma call_step_mono (P Q : config_write → Prop) (s s' : state) :
  (∀ w, P w → Q w) → call_step P s s' → call_step Q s s'.
Proof.
  intros HPQ Hstep.
  destruct Hstep;
    [apply cs_same|by apply cs_compute|apply cs_event|apply cs_write; auto
    |by apply cs_trigger|by eapply cs_reference].
Qed.

Lemma builder_call_step (s : state) (c : call) :
  well_sealed s →
  is_builder_call c = true →
  call_step (λ w, setter_write w = true) s (exec s c).
Proof.
  intros Hws Hb. eapply call_step_mono; [|by apply run_call_step].
  simpl. auto.
Qed.

Lemma builder_step_grows (s s' : state) (l : loc) (r : resource) :
  call_step (λ w, setter_write w = true) s s' →
  heap s !! l = Some (OCompute r) →
  ∃ r' : resource,
    heap s' !! l = Some (OCompute r')
    ∧ cfg_runtime (config r') = cfg_runtime (config r)
    ∧ cfg_triggers (config r) `prefix_of` cfg_triggers (config r')
    ∧ cfg_references (config r) `prefix_of` cfg_references (config r').
Proof.
  intros Hstep Hl.
  destruct Hstep as [|id runtime Hid Hvalid Hrt|e|self r0 w Hs Hw HP|self r0 ev Hs
                    |self r0 t ct actions name Hs Ht Hn].
  - by exists r.
  - exists r. split; [|done]. simpl. rewrite lookup_insert_ne; [done|].
    intros Heq. by rewrite <- Heq, fresh_loc_unused in Hl.
  - exists r. split; [|done]. simpl. rewrite lookup_insert_ne; [done|].
    intros Heq. by rewrite <- Heq, fresh_loc_unused in Hl.
  - destruct (decide (self = l)) as [->|Hne].
    + assert (r0 = r) as -> by congruence. eexists. split; [apply with_object_lookup|].
      destruct r as [m [] sl], w; simplify_eq/=; done.
    + exists r. split; [by rewrite with_object_lookup_ne|done].
  - destruct (decide (self = l)) as [->|Hne].
    + assert (r0 = r) as -> by congruence. eexists. split; [apply with_object_lookup|].
      rewrite push_trigger_list.
      destruct r as [m [] sl]; simpl.
      split; [done|]. split; [by apply prefix_app_r|done].
    + exists r. split; [by rewrite with_object_lookup_ne|done].
  - destruct (decide (self = l)) as [->|Hne].
    + assert (r0 = r) as -> by congruence. eexists. split; [apply with_object_lookup|].
      rewrite push_reference_list.
      destruct r as [m [] sl]; simpl.
      split; [done|]. split; [done|by apply prefix_app_r].
    + exists r. split; [by rewrite with_object_lookup_ne|done].
Qed.

(** X11. From any state a build script can reach, however many factory
    and fluent method calls follow, a compute object keeps its runtime,
    and its triggers and references lists only grow at the end: what was
    in them stays, in the same positions. *)
Theorem builder_only_appends (cs : list call) (s : state) (l : loc)
    (r : resource) :
  reachable s →
  forallb is_builder_call cs = true →
  heap s !! l = Some (OCompute r) →
  ∃ r' : resource,
    heap (exec_all s cs) !! l = Some (OCompute r')
    ∧ cfg_runtime (config r') = cfg_runtime (config r)
    ∧ cfg_triggers (config r) `prefix_of` cfg_triggers (config r')
    ∧ cfg_references (config r) `prefix_of` cfg_references (config r').
Proof.
  intros Hreach. apply reachable_well_sealed in Hreach as Hws. clear Hreach.
  revert s r Hws. induction cs as [|c cs IH]; intros s r Hws Hall Hl.
  - by exists r.
  - simpl in Hall. apply andb_true_iff in Hall as [Hc Hall]. simpl.
    destruct (builder_step_grows s (exec s c) l r
                (builder_call_step s c Hws Hc) Hl) as (r1 & Hl1 & Hr1 & Ht1 & Hf1).
    destruct (IH (exec s c) r1) as (r2 & Hl2 & Hr2 & Ht2 & Hf2); [|done|done|].
    { eapply shape_well_sealed; [by apply run_shape|done]. }
    exists r2. split; [done|].
    split; [congruence|]. split; by etrans.
Qed.

(** ** Every edge is anchored at its owner *)

Lemma call_step_persist (P : config_write → Prop) (s s' : state) (t : loc)
    (ct : resource) :
  call_step P s s' →
  heap s !! t = Some (OCompute ct) →
  ∃ ct', heap s' !! t = Some (OCompute ct').
Proof.
  intros Hstep Ht.
  destruct Hstep as [|id runtime Hid Hvalid Hrt|e|self r0 w Hs Hw HP|self r0 ev Hs
                    |self r0 t0 ct0 actions name Hs Ht0 Hn];
    [by eauto|..]; simpl; rewrite lookup_insert; case_decide; eauto;
    simplify_eq; by rewrite fresh_loc_unused in Ht.
Qed.

Lemma anchored_reference_persist (P : config_write → Prop) (s s' : state)
    (l : loc) (e : Reference) :
  call_step P s s' →
  anchored_reference s l e → anchored_reference s' l e.
Proof.
  intros Hstep (Hfrom & Hname & t & ct & Hto & Ht).
  destruct (call_step_persist P s s' t ct Hstep Ht) as [ct' Ht'].
  repeat split; eauto.
Qed.

Lemma builder_step_anchored (s s' : state) :
  call_step (λ w, setter_write w = true) s s' →
  anchored s → anchored s'.
Proof.
  intros Hstep Hanc l r Hl.
  assert (Hkeep : ∀ r0, heap s !! l = Some (OCompute r0) →
            Forall (anchored_trigger l) (cfg_triggers (config r0))
            ∧ Forall (anchored_reference s' l) (cfg_references (config r0))).
  { intros r0 Hr0. destruct (Hanc l r0 Hr0) as [Ht Hf]. split; [done|].
    eapply Forall_impl; [exact Hf|].
    intros e. by eapply anchored_reference_persist. }
  pose proof Hstep as Hstep'.
  destruct Hstep as [|id runtime Hid Hvalid Hrt|e|self r0 w Hs Hw HP|self r0 ev Hs
                    |self r0 t ct actions name Hs Ht Hn].
  - by apply Hkeep.
  - simpl in Hl. rewrite lookup_insert in Hl. case_decide; simplify_eq.
    + split; constructor.
    + by apply Hkeep.
  - simpl in Hl. rewrite lookup_insert in Hl. case_decide; simplify_eq.
    by apply Hkeep.
  - simpl in Hl. rewrite lookup_insert in Hl. case_decide; simplify_eq.
    + destruct (Hkeep r0 Hs) as [Ht Hf].
      destruct r0 as [m [] sl], w; simplify_eq/=; done.
    + by apply Hkeep.
  - simpl in Hl. rewrite lookup_insert in Hl. case_decide; simplify_eq.
    + destruct (Hkeep r0 Hs) as [Ht Hf].
      rewrite push_trigger_list. split.
      * apply Forall_app. split; [done|]. by repeat constructor.
      * by destruct r0 as [m [] sl].
    + by apply Hkeep.
  - simpl in Hl. rewrite lookup_insert in Hl. case_decide; simplify_eq.
    + destruct (Hkeep r0 Hs) as [Htr Hf].
      rewrite push_reference_list. split.
      * by destruct r0 as [m [] sl].
      * apply Forall_app. split; [done|]. repeat constructor; [done|].
        destruct (call_step_persist _ _ _ t ct Hstep' Ht) as [ct' Ht'].
        eauto.
    + by apply Hkeep.
Qed.

(** X12. In every state reached through the factories and the fluent
    methods alone, each compute object holds only edges anchored at
    itself: every trigger in its list ends at it; every reference in its
    list starts at it, has a non-empty (truthy) name, and targets a
    compute object that is in the store. *)
Theorem built_edges_are_anchored (s : state) : built s → anchored s.
Proof.
  intros (cs & Hall & ->).
  assert (Hgen : ∀ s0,
            well_sealed s0 → anchored s0 → anchored (exec_all s0 cs)).
  { induction cs as [|c cs IH]; intros s0 Hws Hanc; [done|].
    simpl in Hall. apply andb_true_iff in Hall as [Hc Hall]. simpl.
    apply IH; [done| |].
    - eapply shape_well_sealed; [by apply run_shape|done].
    - eapply builder_step_anchored; [by apply builder_call_step|done]. }
  apply Hgen.
  - intros l r Hl. simpl in Hl. by rewrite lookup_empty in Hl.
  - intros l r Hl. simpl in Hl. by rewrite lookup_empty in Hl.
Qed.

(** ** One generator call per resource *)

Lemma call_step_indexed (P : config_write → Prop) (s s' : state) :
  call_step P s s' →
  (∃ idx, ids_indexed s idx) → ∃ idx, ids_indexed s' idx.
Proof.
  intros Hstep (idx & Hidx & Hinj).
  destruct Hstep as [|id runtime Hid Hvalid Hrt|e|self r0 w Hs Hw HP|self r0 ev Hs
                    |self r0 t ct actions name Hs Ht Hn].
  - by exists idx.
  - exists (λ l, if decide (l = fresh (dom (heap s)))
                 then uuid_calls s else idx l).
    split.
    + intros l r. simpl. rewrite lookup_insert.
      case_decide as Hl; intros Hr; simplify_eq.
      * rewrite decide_True by done. simpl. split; [lia|done].
      * rewrite decide_False by done.
        destruct (Hidx l r Hr). split; [lia|done].
    + intros l1 l2 r1 r2. simpl. rewrite !lookup_insert.
      repeat case_decide; intros Ha Hb Heq; simplify_eq; try done.
      * destruct (Hidx l2 r2 Hb). lia.
      * destruct (Hidx l1 r1 Ha). lia.
      * by eapply Hinj.
  - exists idx. split.
    + intros l r. simpl. rewrite lookup_insert.
      case_decide; intros Hr; simplify_eq. by apply Hidx.
    + intros l1 l2 r1 r2. simpl. rewrite !lookup_insert.
      repeat case_decide; intros Ha Hb Heq; simplify_eq. by eapply Hinj.
  - exists idx. split.
    + intros l r. simpl. rewrite lookup_insert.
      case_decide; intros Hr; simplify_eq; [|by apply Hidx].
      by apply (Hidx l r0).
    + intros l1 l2 r1 r2. simpl. rewrite !lookup_insert.
      repeat case_decide; intros Ha Hb Heq; simplify_eq; eauto.
  - exists idx. split.
    + intros l r. simpl. rewrite lookup_insert.
      case_decide; intros Hr; simplify_eq; [|by apply Hidx].
      by apply (Hidx l r0).
    + intros l1 l2 r1 r2. simpl. rewrite !lookup_insert.
      repeat case_decide; intros Ha Hb Heq; simplify_eq; eauto.
  - exists idx. split.
    + intros l r. simpl. rewrite lookup_insert.
      case_decide; intros Hr; simplify_eq; [|by apply Hidx].
      by apply (Hidx l r0).
    + intros l1 l2 r1 r2. simpl. rewrite !lookup_insert.
      repeat case_decide; intros Ha Hb Heq; simplify_eq; eauto.
Qed.

Lemma reachable_indexed (s : state) :
  reachable s → ∃ idx, ids_indexed s idx.
Proof.
  intros (cs & ->).
  assert (Hgen : ∀ s0,
            well_sealed s0 → (∃ idx, ids_indexed s0 idx) →
            ∃ idx, ids_indexed (exec_all s0 cs) idx).
  { induction cs as [|c cs IH]; intros s0 Hws Hidx; [done|].
    simpl. apply IH.
    - eapply shape_well_sealed; [by apply run_shape|done].
    - eapply call_step_indexed; [by apply run_call_step|done]. }
  apply Hgen.
  - intros l r Hl. simpl in Hl. by rewrite lookup_empty in Hl.
  - exists (λ _, 0). split.
    + intros l r Hl. simpl in Hl. by rewrite lookup_empty in Hl.
    + intros l1 l2 r1 r2 Hl. simpl in Hl. by rewrite lookup_empty in Hl.
Qed.

(** X13. In every state a build script can reach, the instance
    identifiers of two different compute objects are the outputs of two
    different calls of the generator, both already made; so whenever the
    generator never repeats an output, no two resources share an instance
    identifier, whatever their labels. *)
Theorem instance_ids_from_distinct_calls (s : state) (l1 l2 : loc)
    (r1 r2 : resource) :
  reachable s →
  heap s !! l1 = Some (OCompute r1) →
  heap s !! l2 = Some (OCompute r2) →
  l1 ≠ l2 →
  (∃ k1 k2 : nat,
      k1 ≠ k2
      ∧ k1 < uuid_calls s ∧ k2 < uuid_calls s
      ∧ meta_id (meta r1) = uuid_v4 k1
      ∧ meta_id (meta r2) = uuid_v4 k2)
  ∧ ((∀ a b : nat, uuid_v4 a = uuid_v4 b → a = b) →
     meta_id (meta r1) ≠ meta_id (meta r2)).
Proof.
  intros Hreach H1 H2 Hne.
  destruct (reachable_indexed s Hreach) as (idx & Hidx & Hinj).
  destruct (Hidx l1 r1 H1) as [Hk1 Hm1].
  destruct (Hidx l2 r2 H2) as [Hk2 Hm2].
  assert (Hk : idx l1 ≠ idx l2) by (intros Heq; by eapply Hne, Hinj).
  split.
  - exists (idx l1), (idx l2). repeat split; done.
  - intros Hgen. rewrite Hm1, Hm2. intros Heq. by apply Hk, Hgen.
Qed.

(** ** What construction checked stays checked *)

Lemma call_step_objects (P : config_write → Prop) (Q : resource → Prop)
    (s s' : state) :
  call_step P s s' →
  (∀ id runtime u,
      truthy id = true → valid_identifier id = true →
      truthy runtime = true → Q (new_compute id runtime u)) →
  (∀ r w,
      Q r → write_prop w ≠ "id" → P w →
      Q (set_config r (apply_write w (config r)))) →
  (∀ r e, Q r → Q (push_trigger e r)) →
  (∀ r e, Q r → Q (push_reference e r)) →
  (∀ l r, heap s !! l = Some (OCompute r) → Q r) →
  ∀ l r, heap s' !! l = Some (OCompute r) → Q r.
Proof.
  intros Hstep Hnew Hwrite Htrig Href Hall l r.
  destruct Hstep as [|id runtime Hid Hvalid Hrt|e|self r0 w Hs Hw HP
                    |self r0 ev Hs|self r0 t ct actions name Hs Ht Hn];
    [by apply Hall|..]; simpl; rewrite lookup_insert;
    case_decide; intros Hl; simplify_eq; eauto.
Qed.

Lemma exec_all_objects (Q : resource → Prop) (allowed : call → bool)
    (P : config_write → Prop) (cs : list call) (s : state) :
  (∀ s0 c, well_sealed s0 → allowed c = true → call_step P s0 (exec s0 c)) →
  (∀ id runtime u,
      truthy id = true → valid_identifier id = true →
      truthy runtime = true → Q (new_compute id runtime u)) →
  (∀ r w,
      Q r → write_prop w ≠ "id" → P w →
      Q (set_config r (apply_write w (config r)))) →
  (∀ r e, Q r → Q (push_trigger e r)) →
  (∀ r e, Q r → Q (push_reference e r)) →
  well_sealed s →
  forallb allowed cs = true →
  (∀ l r, heap s !! l = Some (OCompute r) → Q r) →
  ∀ l r, heap (exec_all s cs) !! l = Some (OCompute r) → Q r.
Proof.
  intros Hstep Hnew Hwrite Htrig Href. revert s.
  induction cs as [|c cs IH]; intros s Hws Hallowed Hall; [done|].
  simpl in Hallowed. apply andb_true_iff in Hallowed as [Hc Hcs]. simpl.
  apply IH; [|done|].
  - eapply shape_well_sealed; [by apply run_shape|done].
  - eapply call_step_objects; eauto.
Qed.

(** X14. What the factory checked stays true of every compute object in
    every state a build script can reach: its [config.id] is non-empty and
    accepted by the Identifier Validator and its kind tag is Compute; and
    in a state reached through the factories and the fluent methods alone
    its runtime is still non-empty. *)
Theorem construction_checks_persist (s : state) (l : loc) (r : resource) :
  reachable s →
  heap s !! l = Some (OCompute r) →
  truthy (cfg_id (config r)) = true
  ∧ valid_identifier (cfg_id (config r)) = true
  ∧ meta_type (meta r) = Compute
  ∧ (built s → truthy (cfg_runtime (config r)) = true).
Proof.
  intros (cs & Hcs) Hl.
  assert (Hempty : ∀ (Q : resource → Prop) l0 r0,
            heap empty_state !! l0 = Some (OCompute r0) → Q r0).
  { intros Q l0 r0 H0. simpl in H0. by rewrite lookup_empty in H0. }
  assert (Hws : well_sealed empty_state) by (intros l0 r0; apply Hempty).
  assert (Hany : ∀ s0 c,
            well_sealed s0 → (λ _ : call, true) c = true →
            call_step (λ _, True) s0 (exec s0 c)).
  { intros s0 c Hs0 _. eapply call_step_mono; [|by apply run_call_step].
    done. }
  assert (Htrue : forallb (λ _ : call, true) cs = true)
    by by apply forallb_forall.
  split; [|split; [|split]].
  - subst s. revert l r Hl.
    apply (exec_all_objects (λ r, truthy (cfg_id (config r)) = true)
             (λ _, true) (λ _, True));
      [exact Hany|done| | | |exact Hws|exact Htrue|apply Hempty].
    + intros r w Hr Hw _. simpl. by rewrite apply_write_id.
    + intros r e. by destruct r as [m [] sl].
    + intros r e. by destruct r as [m [] sl].
  - subst s. revert l r Hl.
    apply (exec_all_objects
             (λ r, valid_identifier (cfg_id (config r)) = true)
             (λ _, true) (λ _, True));
      [exact Hany|done| | | |exact Hws|exact Htrue|apply Hempty].
    + intros r w Hr Hw _. simpl. by rewrite apply_write_id.
    + intros r e. by destruct r as [m [] sl].
    + intros r e. by destruct r as [m [] sl].
  - subst s. revert l r Hl.
    apply (exec_all_objects (λ r, meta_type (meta r) = Compute)
             (λ _, true) (λ _, True));
      [exact Hany|done|done|done|done|exact Hws|exact Htrue|apply Hempty].
  - intros (cs' & Hall & Hcs'). clear Hcs Htrue. subst s. revert l r Hl.
    apply (exec_all_objects (λ r, truthy (cfg_runtime (config r)) = true)
             is_builder_call (λ w, setter_write w = true));
      [|done| | | |exact Hws|exact Hall|apply Hempty].
    + intros s0 c Hs0 Hc. by apply builder_call_step.
    + intros r w Hr Hw Hset. destruct r as [m [] sl], w; simplify_eq/=; done.
    + intros r e. by destruct r as [m [] sl].
    + intros r e. by destruct r as [m [] sl].
Qed.

(** ** Chains *)

Lemma invoke_safe (s : state) (r : loc) (c : resource) (f : fluent) :
  well_sealed s →
  heap s !! r = Some (OCompute c) →
  safe_link s c f = true →
  ∃ c' : resource,
    invoke f r s = (Return (VRef r), with_object s r (OCompute c'))
    ∧ exec s (to_call r f) = with_object s r (OCompute c')
    ∧ keeps_maps c c'.
Proof.
  intros Hws Hr Hsafe. pose proof (Hws r c Hr) as Hc.
  unfold safe_link in Hsafe.
  apply andb_true_iff in Hsafe as [Hsafe Hw].
  apply andb_true_iff in Hsafe as [Hres Hplain].
  assert (Hkeep : ∀ w,
            setter_write w = false ∨ write_prop w = "vcs"
            ∨ write_prop w = "code" ∨ write_prop w = "description" →
            write_prop w ≠ "id" →
            write_prop w ≠ "environment" → write_prop w ≠ "tags" →
            keeps_maps c (set_config c (apply_write w (config c)))).
  { intros w _ Hid He Ht. destruct c as [m [] sl], w; simpl in *;
      try done; repeat split; auto. }
  unfold exec.
  destruct f as [url|content|text|name val|key val|event
                |target actions alias]; simpl; rewrite discard_snd.
  - eexists. rewrite (vcs_success s r c url Hr Hc).
    split; [done|]. split; [done|]. apply Hkeep; auto.
  - eexists. rewrite (code_success s r c content Hr Hc).
    split; [done|]. split; [done|]. apply Hkeep; auto.
  - eexists. rewrite (description_success s r c text Hr Hc).
    split; [done|]. split; [done|]. apply Hkeep; auto.
  - simpl in Hplain, Hw. apply negb_true_iff in Hplain, Hw.
    apply bool_decide_eq_false in Hplain.
    eexists. rewrite (env_plain s r c name val Hr Hplain Hw).
    split; [done|]. split; [done|].
    destruct c as [m [] sl]; simpl. repeat split; auto.
    intros k Hk. simpl. rewrite lookup_insert. by case_decide.
  - simpl in Hplain, Hw. apply negb_true_iff in Hplain, Hw.
    apply bool_decide_eq_false in Hplain.
    eexists. rewrite (tag_plain s r c key val Hr Hplain Hw).
    split; [done|]. split; [done|].
    destruct c as [m [] sl]; simpl. repeat split; auto.
    intros k Hk. simpl. rewrite lookup_insert. by case_decide.
  - eexists. rewrite (on_success s r c event Hr).
    split; [done|]. split; [done|].
    destruct c as [m [] sl]; simpl. repeat split; auto.
  - simpl in Hres. destruct target as [| |t]; try done.
    destruct (heap s !! t) as [[ct|ev]|] eqn:Ht; try done.
    eexists. rewrite (use_success s r t c ct actions alias Hr Ht).
    split; [done|]. split; [done|].
    destruct c as [m [] sl]; simpl. repeat split; auto.
Qed.

Lemma resolvable_persist (s s' : state) (f : fluent) :
  step_shape s s' → resolvable s f = true → resolvable s' f = true.
Proof.
  intros Hshape. destruct f as [| | | | | |target actions alias]; try done.
  simpl. destruct target as [| |t]; try done.
  destruct (heap s !! t) as [[ct|ev]|] eqn:Ht; try done. intros _.
  destruct (shape_identity s s' t ct Hshape Ht) as (ct' & -> & _). done.
Qed.

Lemma refuses_keeps (s : state) (r : loc) (c c' : resource)
    (o o' : gmap string value) (proto : option loc) (key : string) :
  heap s !! r = Some (OCompute c) →
  sealed c' = sealed c →
  (is_Some (o !! key) → is_Some (o' !! key)) →
  refuses s o proto key = false →
  refuses (with_object s r (OCompute c')) o' proto key = false.
Proof.
  intros Hr Hs Hown Href. unfold refuses in *.
  destruct (o' !! key) eqn:Ho'; [done|].
  destruct (o !! key) eqn:Ho.
  - destruct Hown as [x Hx]; [by eauto|]. congruence.
  - destruct proto as [l|]; [|done].
    by rewrite (read_only_with_object s r l c c').
Qed.

Lemma safe_link_persist (s : state) (r : loc) (c c' : resource)
    (f : fluent) :
  well_sealed s →
  heap s !! r = Some (OCompute c) →
  same_identity c c' →
  keeps_maps c c' →
  safe_link s c f = true →
  safe_link (with_object s r (OCompute c')) c' f = true.
Proof.
  intros Hws Hr Hid (Hs & Hep & Htp & Hown & Htown) Hsafe.
  unfold safe_link in *.
  apply andb_true_iff in Hsafe as [Hsafe Hw].
  apply andb_true_iff in Hsafe as [Hres Hplain].
  rewrite Hplain.
  rewrite (resolvable_persist s (with_object s r (OCompute c')) f);
    [|by eapply shape_update|done].
  simpl.
  destruct f as [| | |name val|key val| |]; try done; simpl in *.
  - apply negb_true_iff in Hw. apply negb_true_iff. rewrite Hep.
    exact (refuses_keeps s r c c' (cfg_environment (config c)) _ _ _
             Hr Hs (Hown _) Hw).
  - apply negb_true_iff in Hw. apply negb_true_iff. rewrite Htp.
    exact (refuses_keeps s r c c' (cfg_tags (config c)) _ _ _
             Hr Hs (Htown _) Hw).
Qed.

Lemma chain_run (fs : list fluent) (s : state) (r : loc) (c : resource) :
  well_sealed s →
  heap s !! r = Some (OCompute c) →
  forallb (safe_link s c) fs = true →
  chain fs (VRef r) s = (Return (VRef r), exec_all s (to_call r <$> fs)).
Proof.
  revert s c. induction fs as [|f fs IH]; intros s c Hws Hr Hall; [done|].
  simpl in Hall. apply andb_true_iff in Hall as [Hf Hall].
  simpl. unfold mbind, M_bind.
  destruct (invoke_safe s r c f Hws Hr Hf) as (c' & Hrun & Hexec & Hkeep).
  rewrite Hrun, Hexec.
  pose proof (run_shape s (to_call r f) Hws) as Hshape.
  rewrite Hexec in Hshape.
  destruct (shape_identity s _ r c Hshape Hr) as (c1 & Hr1 & Hid).
  rewrite with_object_lookup in Hr1. injection Hr1 as <-.
  apply (IH _ c');
    [by eapply shape_well_sealed|apply with_object_lookup|].
  apply forallb_forall. intros g Hg.
  apply (safe_link_persist s r c c'); try done.
  by eapply forallb_forall in Hall.
Qed.

Lemma chain_value (fs : list fluent) (s : state) (r : loc) (v : value) :
  fst (chain fs (VRef r) s) = Return v → v = VRef r.
Proof.
  revert s. induction fs as [|f fs IH]; intros s; simpl.
  - intros Hv. by injection Hv as <-.
  - unfold mbind, M_bind.
    destruct (invoke f r s) as [[recv|e] s1] eqn:Hf; [|done].
    assert (recv = VRef r) as ->
      by (apply (method_returns_self f r s); by rewrite Hf).
    apply IH.
Qed.

(** X15. For a compute object [r], whatever a chain of fluent calls
    started on it, [r.m1(...).m2(...)...], returns is [r] itself. And in
    every state a build script can reach the chain does return, with the
    effect of making the calls on [r] one after the other, provided every
    [use] in it targets an object with a config and every [env] or [tag]
    in it has a key other than ["__proto__"] whose write [r] does not
    refuse. *)
Theorem chain_returns_receiver (fs : list fluent) (s : state) (r : loc)
    (c : resource) :
  reachable s →
  heap s !! r = Some (OCompute c) →
  (∀ v : value, fst (chain fs (VRef r) s) = Return v → v = VRef r)
  ∧ (forallb (safe_link s c) fs = true →
     chain fs (VRef r) s
     = (Return (VRef r), exec_all s (to_call r <$> fs))).
Proof.
  intros Hreach Hr. split.
  - intros v. apply chain_value.
  - apply chain_run; [by apply reachable_well_sealed|done].
Qed.

(** X16. In every state a build script can reach, a successful factory
    call followed at once by a chain of fluent calls,
    [compute(L, runtime).m1(...).m2(...)...], evaluates to the newly
    allocated resource, which at the end still carries the label [L] and
    the instance identifier drawn for it, provided every [use] in the
    chain targets an object with a config that was already in the store
    and no [env] or [tag] in it has the key ["__proto__"]. *)
Theorem compute_then_chain (fs : list fluent) (L runtime : value)
    (s : state) :
  reachable s →
  truthy L = true → valid_identifier L = true → truthy runtime = true →
  forallb (λ f, resolvable s f && plain_link f) fs = true →
  ∃ (l : loc) (c' : resource) (s' : state),
    (r ← compute L runtime; chain fs r) s = (Return (VRef l), s')
    ∧ heap s !! l = None
    ∧ heap s' !! l = Some (OCompute c')
    ∧ cfg_id (config c') = L
    ∧ meta_id (meta c') = uuid_v4 (uuid_calls s)
    ∧ meta_type (meta c') = Compute.
Proof.
  intros Hreach HL Hv Hrt Hall.
  apply reachable_well_sealed in Hreach as Hws.
  set (l := fresh (dom (heap s))).
  set (c0 := new_compute L runtime (uuid_v4 (uuid_calls s))).
  set (s1 := mkState (<[ l := OCompute c0 ]> (heap s)) (S (uuid_calls s))).
  assert (Hshape : step_shape s s1).
  { apply shape_alloc_compute; [apply fresh_loc_unused|done]. }
  assert (Hws1 : well_sealed s1) by by eapply shape_well_sealed.
  assert (Hl1 : heap s1 !! l = Some (OCompute c0))
    by (simpl; apply lookup_insert_eq).
  assert (Hall1 : forallb (safe_link s1 c0) fs = true).
  { apply forallb_forall. intros g Hg.
    eapply forallb_forall in Hall; [|done]. simpl in Hall.
    apply andb_true_iff in Hall as [Hres Hplain].
    unfold safe_link.
    rewrite (resolvable_persist s s1 g Hshape Hres), Hplain. simpl.
    by destruct g. }
  destruct (exec_all_identity (to_call l <$> fs) s1 l c0 Hws1 Hl1)
    as (c' & Hc' & Hm & _ & Hid & _).
  exists l, c'. eexists.
  split.
  { unfold mbind, M_bind. rewrite compute_success by done.
    fold l c0 s1. by rewrite (chain_run fs s1 l c0). }
  split; [apply fresh_loc_unused|].
  split; [done|].
  by rewrite Hid, Hm.
Qed.

End Builder.


(** * The properties on a concrete script *)

(** The store after [demo_script], with the letters-and-digits grammar:
    the resource "fn1" at location 1, the resource "db1" at location 2 and
    the event at location 3. *)
Abbreviation demo_state :=
  (exec_all alnum_identifier demo_uuid empty_state demo_script).
Abbreviation fn1 := (new_compute (VStr "fn1") (VStr "nodejs") "u").
Abbreviation db1 := (new_compute (VStr "db1") (VStr "nodejs") "uu").

(** The store after [demo_script] and [fn1.env("__proto__", db1)]: the
    environment of "fn1" then has the resource "db1" as its prototype. *)
Abbreviation proto_script :=
  (demo_script ++ [CallEnv 1%positive (VStr "__proto__") (VRef 2%positive)]).
Abbreviation proto_state :=
  (exec_all alnum_identifier demo_uuid empty_state proto_script).
Abbreviation fn1_proto :=
  (set_config fn1
     (apply_write (WEnvironment ∅ (Some 2%positive)) (config fn1))).

(** The store after [demo_script], [fn1.on(event)] and [fn1.use(db1,
    ["read"])]: "fn1" then holds one trigger and one reference. *)
Abbreviation edges_script :=
  (demo_script
   ++ [CallOn 1%positive (VRef 3%positive);
       CallUse 1%positive (VRef 2%positive) ["read"] VUndefined]).
Abbreviation edges_state :=
  (exec_all alnum_identifier demo_uuid empty_state edges_script).
Abbreviation fn1_edges :=
  (push_reference
     (mkReference (VStr "db1Ref") (VRef 1%positive) (VRef 2%positive)
        ["read"])
     (push_trigger (mkTrigger (VRef 3%positive) (VRef 1%positive)) fn1)).

Lemma demo_reachable : reachable alnum_identifier demo_uuid demo_state.
Proof. by exists demo_script. Qed.

Lemma proto_reachable : reachable alnum_identifier demo_uuid proto_state.
Proof. by exists proto_script. Qed.

Lemma alnum_rejects_space (lbl : string) :
  has_space lbl = true → alnum_identifier (VStr lbl) = false.
Proof.
  unfold has_space, alnum_identifier. simpl js_to_string.
  intros Hsp. apply existsb_exists in Hsp as (a & Hin & Ha).
  apply Ascii.eqb_eq in Ha. subst a.
  destruct (list_ascii_of_string lbl) as [|b l]; [done|].
  destruct (forallb is_alnum (b :: l)) eqn:Hall; [|done].
  rewrite forallb_forall in Hall. by specialize (Hall _ Hin).
Qed.

Lemma compute_returns_resource_witness :
  truthy (VStr "fn1") = true
  ∧ alnum_identifier (VStr "fn1") = true
  ∧ truthy (VStr "nodejs") = true
  ∧ ∃ (l : loc) (r : resource) (s' : state),
      compute alnum_identifier demo_uuid (VStr "fn1") (VStr "nodejs")
        empty_state = (Return (VRef l), s')
      ∧ heap empty_state !! l = None
      ∧ heap s' !! l = Some (OCompute r)
      ∧ cfg_id (config r) = VStr "fn1"
      ∧ cfg_runtime (config r) = VStr "nodejs"
      ∧ meta_type (meta r) = Compute.
Proof.
  split; [reflexivity|]. split; [reflexivity|]. split; [reflexivity|].
  apply compute_returns_resource; reflexivity.
Defined.

Lemma compute_missing_argument_witness :
  (truthy (VStr "") = false ∨ truthy (VStr "nodejs") = false)
  ∧ compute alnum_identifier demo_uuid (VStr "") (VStr "nodejs") demo_state
    = (Throw MissingArgument, demo_state)
  ∧ compute alnum_identifier demo_uuid (VStr "fn2") VUndefined demo_state
    = (Throw MissingArgument, demo_state).
Proof.
  split; [left; reflexivity|].
  split.
  - apply (compute_missing_argument alnum_identifier demo_uuid (VStr "")
             (VStr "nodejs") demo_state). left; reflexivity.
  - apply (compute_missing_argument alnum_identifier demo_uuid (VStr "fn2")
             VUndefined demo_state). right; reflexivity.
Defined.

(** C3 as stated fails: with the rejected label and an empty runtime the
    compute factory throws MissingArgument, not InvalidIdentifier, since
    both asserts run before the Identifier Validator. *)
Lemma compute_bad_label_empty_runtime :
  truthy (VStr bad_label) = true
  ∧ alnum_identifier (VStr bad_label) = false
  ∧ compute alnum_identifier demo_uuid (VStr bad_label) (VStr "") empty_state
    = (Throw MissingArgument, empty_state)
  ∧ fst (compute alnum_identifier demo_uuid (VStr bad_label) (VStr "")
           empty_state) ≠ Throw InvalidIdentifier.
Proof.
  split; [reflexivity|]. split; [reflexivity|]. split; [reflexivity|].
  discriminate.
Qed.

Lemma invalid_identifier_surfaces_witness :
  (∀ lbl : string, has_space lbl = true → alnum_identifier (VStr lbl) = false)
  ∧ compute alnum_identifier demo_uuid (VStr bad_label) (VStr "nodejs")
      empty_state = (Throw InvalidIdentifier, empty_state)
  ∧ ievent alnum_identifier (VStr bad_label) empty_state
    = (Throw InvalidIdentifier, empty_state)
  ∧ ∃ (l : loc) (e : event) (s' : state),
      ievent alnum_identifier (VStr "MyInternalEvent") empty_state
      = (Return (VRef l), s')
      ∧ heap empty_state !! l = None
      ∧ heap s' !! l = Some (OEvent e)
      ∧ ev_type e = InternalEvent.
Proof.
  split; [exact alnum_rejects_space|].
  destruct (invalid_identifier_surfaces alnum_identifier demo_uuid
              alnum_rejects_space) as (_ & _ & Hc & He & Hok).
  split; [apply Hc; reflexivity|].
  split; [apply He|].
  apply Hok; reflexivity.
Defined.

Lemma use_appends_reference_witness :
  heap demo_state !! 1%positive = Some (OCompute fn1)
  ∧ heap demo_state !! 2%positive = Some (OCompute db1)
  ∧ (∃ (s' : state) (c' : resource),
        use 1%positive (VRef 2%positive) ["read"] VUndefined demo_state
        = (Return (VRef 1%positive), s')
        ∧ heap s' !! 1%positive = Some (OCompute c')
        ∧ cfg_references (config c')
          = [mkReference (VStr "db1Ref") (VRef 1%positive) (VRef 2%positive)
               ["read"]])
  ∧ (∃ (s' : state) (c' : resource),
        use 1%positive (VRef 2%positive) ["read"] (VStr "customAlias")
          demo_state
        = (Return (VRef 1%positive), s')
        ∧ heap s' !! 1%positive = Some (OCompute c')
        ∧ cfg_references (config c')
          = [mkReference (VStr "customAlias") (VRef 1%positive)
               (VRef 2%positive) ["read"]]).
Proof.
  split; [reflexivity|]. split; [reflexivity|].
  exact (use_appends_reference demo_state 1%positive 2%positive fn1 db1
           ["read"] eq_refl eq_refl).
Defined.

Lemma on_appends_trigger_witness :
  heap demo_state !! 1%positive = Some (OCompute fn1)
  ∧ ∃ (s' : state) (c' : resource),
      on 1%positive (VRef 3%positive) demo_state
      = (Return (VRef 1%positive), s')
      ∧ heap s' !! 1%positive = Some (OCompute c')
      ∧ cfg_triggers (config c')
        = [mkTrigger (VRef 3%positive) (VRef 1%positive)].
Proof.
  split; [reflexivity|].
  destruct (on_appends_trigger demo_state 1%positive fn1 (VRef 3%positive)
              eq_refl) as (s' & c' & Hrun & Hl & Hlist & _).
  exists s', c'. split; [exact Hrun|]. split; [exact Hl|exact Hlist].
Defined.

Lemma use_empty_alias_falls_back_witness :
  heap demo_state !! 1%positive = Some (OCompute fn1)
  ∧ heap demo_state !! 2%positive = Some (OCompute db1)
  ∧ ∃ (s' : state) (c' : resource),
      use 1%positive (VRef 2%positive) ["read"] (VStr "") demo_state
      = (Return (VRef 1%positive), s')
      ∧ heap s' !! 1%positive = Some (OCompute c')
      ∧ cfg_references (config c')
        = [mkReference (VStr "db1Ref") (VRef 1%positive) (VRef 2%positive)
             ["read"]].
Proof.
  split; [reflexivity|]. split; [reflexivity|].
  destruct (use_empty_alias_falls_back demo_state 1%positive 2%positive
              fn1 db1 ["read"] eq_refl eq_refl)
    as (s' & c' & Hrun & Hl & Hlist & _).
  exists s', c'. split; [exact Hrun|]. split; [exact Hl|exact Hlist].
Defined.

Lemma fluent_methods_return_self_witness :
  reachable alnum_identifier demo_uuid proto_state
  ∧ heap proto_state !! 1%positive = Some (OCompute fn1_proto)
  ∧ (∀ v : value,
        fst (invoke (FEnv (VStr "meta") (VStr "x")) 1%positive proto_state)
        = Return v →
        v = VRef 1%positive)
  ∧ fst (vcs 1%positive (VStr "https://example.org/fn1.git") proto_state)
    = Return (VRef 1%positive)
  ∧ fst (env 1%positive (VStr "STAGE") (VStr "prod") proto_state)
    = Return (VRef 1%positive)
  ∧ fst (use 1%positive (VRef 2%positive) ["read"] VUndefined proto_state)
    = Return (VRef 1%positive)
  ∧ fst ((recv ← call_method (VRef 1%positive)
                   (λ self, tag self (VStr "a") (VStr "b"));
          call_method recv (λ self, env self (VStr "x") (VStr "y")))
           proto_state)
    = Return (VRef 1%positive).
Proof.
  split; [apply proto_reachable|]. split; [reflexivity|].
  destruct (fluent_methods_return_self alnum_identifier demo_uuid
              proto_state 1%positive fn1_proto proto_reachable eq_refl)
    as (Hvalue & _ & Hvcs & _ & _ & _ & Henv & _ & Huse & Hchain).
  split; [apply Hvalue|].
  split; [apply Hvcs|].
  split; [apply Henv; reflexivity|].
  split; [apply (Huse 2%positive db1); reflexivity|apply Hchain].
Defined.

Lemma identity_is_immutable_witness :
  reachable alnum_identifier demo_uuid demo_state
  ∧ heap demo_state !! 1%positive = Some (OCompute fn1)
  ∧ assign_meta 1%positive (mkMeta "forged" InternalEvent false) demo_state
    = (Throw ImmutableFieldError, demo_state)
  ∧ assign_config 1%positive (WId (VStr "renamed")) demo_state
    = (Throw ImmutableFieldError, demo_state)
  ∧ fst (assign_config 1%positive (WRuntime (VStr "python")) demo_state)
    = Return tt.
Proof.
  split; [apply demo_reachable|]. split; [reflexivity|].
  destruct (identity_is_immutable alnum_identifier demo_uuid demo_state
              1%positive fn1 demo_reachable eq_refl)
    as (Hmeta & _ & _ & Hid & Hother & _).
  split; [apply Hmeta|]. split; [apply Hid|].
  by rewrite Hother.
Defined.

Lemma vcs_and_code_coexist_witness :
  reachable alnum_identifier demo_uuid demo_state
  ∧ heap demo_state !! 1%positive = Some (OCompute fn1)
  ∧ ∃ (s' : state) (c' : resource),
      (vcs 1%positive (VStr "https://example.org/fn1.git");;
       code 1%positive (VStr "exports.handler = f")) demo_state
      = (Return (VRef 1%positive), s')
      ∧ heap s' !! 1%positive = Some (OCompute c')
      ∧ cfg_vcs (config c') = Some (VStr "https://example.org/fn1.git")
      ∧ cfg_code (config c') = Some (VStr "exports.handler = f").
Proof.
  split; [apply demo_reachable|]. split; [reflexivity|].
  exact (proj1 (vcs_and_code_coexist alnum_identifier demo_uuid demo_state
                  1%positive fn1 (VStr "https://example.org/fn1.git")
                  (VStr "exports.handler = f") demo_reachable eq_refl)).
Defined.

(** * The further properties on the concrete script *)

Lemma demo_built : built alnum_identifier demo_uuid demo_state.
Proof. exists demo_script. by split. Qed.

Lemma env_sets_variable_witness :
  heap proto_state !! 1%positive = Some (OCompute fn1_proto)
  ∧ js_to_string (VStr "STAGE") ≠ "__proto__"
  ∧ js_to_string (VStr "meta") ≠ "__proto__"
  ∧ refuses proto_state (cfg_environment (config fn1_proto))
      (cfg_environment_proto (config fn1_proto)) "STAGE" = false
  ∧ refuses proto_state (cfg_environment (config fn1_proto))
      (cfg_environment_proto (config fn1_proto)) "meta" = true
  ∧ (∃ (s' : state) (c' : resource),
        env 1%positive (VStr "STAGE") (VStr "prod") proto_state
        = (Return (VRef 1%positive), s')
        ∧ heap s' !! 1%positive = Some (OCompute c')
        ∧ cfg_environment (config c') !! "STAGE" = Some (VStr "prod"))
  ∧ ∃ e : error,
      env 1%positive (VStr "meta") (VStr "x") proto_state
      = (Throw e, proto_state).
Proof.
  split; [reflexivity|]. split; [discriminate|]. split; [discriminate|].
  split; [reflexivity|]. split; [reflexivity|].
  split.
  - destruct (proj1 (env_sets_variable proto_state 1%positive fn1_proto
                       (VStr "STAGE") (VStr "prod") eq_refl
                       ltac:(discriminate)) eq_refl)
      as (s' & c' & Hrun & Hl & Hget & _).
    exists s', c'. split; [exact Hrun|]. split; [exact Hl|exact Hget].
  - exact (proj2 (env_sets_variable proto_state 1%positive fn1_proto
                    (VStr "meta") (VStr "x") eq_refl ltac:(discriminate))
             eq_refl).
Defined.


Lemma tag_sets_tag_witness :
  heap proto_state !! 1%positive = Some (OCompute fn1_proto)
  ∧ js_to_string (VStr "team") ≠ "__proto__"
  ∧ refuses proto_state (cfg_tags (config fn1_proto))
      (cfg_tags_proto (config fn1_proto)) "team" = false
  ∧ accepts proto_state (cfg_tags (config fn1_proto))
      (cfg_tags_proto (config fn1_proto)) "team" = true
  ∧ accepts proto_state (cfg_environment (config fn1_proto))
      (cfg_environment_proto (config fn1_proto)) "STAGE" = true
  ∧ (∃ (s' : state) (c' : resource),
        tag 1%positive (VStr "team") (VStr "core") proto_state
        = (Return (VRef 1%positive), s')
        ∧ heap s' !! 1%positive = Some (OCompute c')
        ∧ cfg_tags (config c') !! "team" = Some (VStr "core"))
  ∧ (tag 1%positive (VStr "team") (VStr "core");;
     env 1%positive (VStr "STAGE") (VStr "prod")) proto_state
    = (env 1%positive (VStr "STAGE") (VStr "prod");;
       tag 1%positive (VStr "team") (VStr "core")) proto_state.
Proof.
  split; [reflexivity|]. split; [discriminate|]. split; [reflexivity|].
  split; [reflexivity|]. split; [reflexivity|].
  destruct (tag_sets_tag proto_state 1%positive fn1_proto (VStr "team")
              (VStr "core") (VStr "STAGE") (VStr "prod") eq_refl)
    as [Hset Hcomm].
  split.
  - destruct (Hset ltac:(discriminate) eq_refl)
      as (s' & c' & Hrun & Hl & Hget & _).
    exists s', c'. split; [exact Hrun|]. split; [exact Hl|exact Hget].
  - apply Hcomm; reflexivity.
Defined.

Lemma description_sets_text_witness :
  reachable alnum_identifier demo_uuid demo_state
  ∧ heap demo_state !! 1%positive = Some (OCompute fn1)
  ∧ (description 1%positive (VStr "draft");;
     description 1%positive (VStr "resizes images")) demo_state
    = description 1%positive (VStr "resizes images") demo_state.
Proof.
  split; [apply demo_reachable|]. split; [reflexivity|].
  exact (proj2 (description_sets_text alnum_identifier demo_uuid demo_state
                  1%positive fn1 (VStr "draft") (VStr "resizes images")
                  demo_reachable eq_refl)).
Defined.

Lemma compute_allocates_empty_resource_witness :
  truthy (VStr "fn2") = true
  ∧ alnum_identifier (VStr "fn2") = true
  ∧ truthy (VStr "python") = true
  ∧ ∃ (l : loc) (r : resource) (s' : state),
      compute alnum_identifier demo_uuid (VStr "fn2") (VStr "python")
        demo_state = (Return (VRef l), s')
      ∧ heap demo_state !! l = None
      ∧ heap s' !! l = Some (OCompute r)
      ∧ heap s' !! 1%positive = Some (OCompute fn1)
      ∧ cfg_triggers (config r) = []
      ∧ cfg_environment (config r) = ∅.
Proof.
  split; [reflexivity|]. split; [reflexivity|]. split; [reflexivity|].
  destruct (compute_allocates_empty_resource alnum_identifier demo_uuid
              (VStr "fn2") (VStr "python") demo_state eq_refl eq_refl eq_refl)
    as (l & r & s' & Hrun & Hfresh & Hl & _ & Hkeep & Ht & _ & He & _).
  exists l, r, s'. split; [exact Hrun|]. split; [exact Hfresh|].
  split; [exact Hl|]. split; [apply Hkeep; reflexivity|].
  split; [exact Ht|exact He].
Defined.

Lemma compute_accepts_duplicate_label_witness :
  truthy (VStr "fn1") = true
  ∧ alnum_identifier (VStr "fn1") = true
  ∧ truthy (VStr "nodejs") = true
  ∧ truthy (VStr "python") = true
  ∧ ∃ (l1 l2 : loc) (s' : state),
      (a ← compute alnum_identifier demo_uuid (VStr "fn1") (VStr "nodejs");
       b ← compute alnum_identifier demo_uuid (VStr "fn1") (VStr "python");
       mret (a, b)) empty_state
      = (Return (VRef l1, VRef l2), s')
      ∧ l1 ≠ l2.
Proof.
  split; [reflexivity|]. split; [reflexivity|]. split; [reflexivity|].
  split; [reflexivity|].
  destruct (compute_accepts_duplicate_label alnum_identifier demo_uuid
              (VStr "fn1") (VStr "nodejs") (VStr "python") empty_state
              eq_refl eq_refl eq_refl eq_refl)
    as (l1 & l2 & r1 & r2 & s' & Hrun & Hne & _).
  exists l1, l2, s'. split; [exact Hrun|exact Hne].
Defined.

Lemma failure_changes_nothing_witness :
  fst (run alnum_identifier demo_uuid
         (CallUse 1%positive VUndefined ["read"] (VStr "alias")) demo_state)
  = Throw TypeError
  ∧ snd (run alnum_identifier demo_uuid
           (CallUse 1%positive VUndefined ["read"] (VStr "alias")) demo_state)
    = demo_state.
Proof.
  split; [reflexivity|].
  apply (failure_changes_nothing alnum_identifier demo_uuid _ _ TypeError).
  reflexivity.
Defined.

Lemma method_touches_only_self_witness :
  method_self (CallTag 1%positive (VStr "team") (VStr "core"))
  = Some 1%positive
  ∧ heap (exec alnum_identifier demo_uuid demo_state
            (CallTag 1%positive (VStr "team") (VStr "core"))) !! 2%positive
    = heap demo_state !! 2%positive
  ∧ uuid_calls (exec alnum_identifier demo_uuid demo_state
                  (CallTag 1%positive (VStr "team") (VStr "core")))
    = uuid_calls demo_state.
Proof.
  split; [reflexivity|].
  destruct (method_touches_only_self alnum_identifier demo_uuid
              (CallTag 1%positive (VStr "team") (VStr "core")) 1%positive
              demo_state eq_refl) as (Hother & _ & Hcount).
  split; [apply Hother; discriminate|exact Hcount].
Defined.

Lemma use_succeeds_iff_target_has_config_witness :
  heap demo_state !! 1%positive = Some (OCompute fn1)
  ∧ use 1%positive (VStr "db1") ["read"] (VStr "alias") demo_state
    = (Throw TypeError, demo_state)
  ∧ fst (use 1%positive (VRef 2%positive) ["read"] (VStr "alias") demo_state)
    = Return (VRef 1%positive).
Proof.
  split; [reflexivity|].
  split.
  - apply (proj2 (use_succeeds_iff_target_has_config demo_state 1%positive
                    fn1 (VStr "db1") ["read"] (VStr "alias") eq_refl)).
    intros (t & ct & Heq & _). discriminate Heq.
  - apply (proj1 (use_succeeds_iff_target_has_config demo_state 1%positive
                    fn1 (VRef 2%positive) ["read"] (VStr "alias") eq_refl)).
    exists 2%positive, db1. split; reflexivity.
Defined.

Lemma on_appends_in_order_witness :
  heap demo_state !! 1%positive = Some (OCompute fn1)
  ∧ ∃ c' : resource,
      heap (exec_all alnum_identifier demo_uuid demo_state
              (CallOn 1%positive <$> [VRef 3%positive; VUndefined]))
        !! 1%positive = Some (OCompute c')
      ∧ cfg_triggers (config c')
        = [mkTrigger (VRef 3%positive) (VRef 1%positive);
           mkTrigger VUndefined (VRef 1%positive)].
Proof.
  split; [reflexivity|].
  destruct (on_appends_in_order alnum_identifier demo_uuid
              [VRef 3%positive; VUndefined] demo_state 1%positive fn1
              eq_refl) as (c' & Hl & Ht & _).
  exists c'. split; [exact Hl|exact Ht].
Defined.

Lemma builder_only_appends_witness :
  reachable alnum_identifier demo_uuid demo_state
  ∧ forallb is_builder_call
      [CallOn 1%positive (VRef 3%positive);
       CallUse 1%positive (VRef 2%positive) ["read"] VUndefined] = true
  ∧ heap demo_state !! 1%positive = Some (OCompute fn1)
  ∧ ∃ r' : resource,
      heap (exec_all alnum_identifier demo_uuid demo_state
              [CallOn 1%positive (VRef 3%positive);
               CallUse 1%positive (VRef 2%positive) ["read"] VUndefined])
        !! 1%positive = Some (OCompute r')
      ∧ cfg_runtime (config r') = VStr "nodejs".
Proof.
  split; [apply demo_reachable|]. split; [reflexivity|].
  split; [reflexivity|].
  destruct (builder_only_appends alnum_identifier demo_uuid
              [CallOn 1%positive (VRef 3%positive);
               CallUse 1%positive (VRef 2%positive) ["read"] VUndefined]
              demo_state 1%positive fn1 demo_reachable eq_refl eq_refl)
    as (r' & Hl & Hrt & _).
  exists r'. split; [exact Hl|exact Hrt].
Defined.

Lemma built_edges_are_anchored_witness :
  built alnum_identifier demo_uuid edges_state
  ∧ heap edges_state !! 1%positive = Some (OCompute fn1_edges)
  ∧ cfg_triggers (config fn1_edges)
    = [mkTrigger (VRef 3%positive) (VRef 1%positive)]
  ∧ cfg_references (config fn1_edges)
    = [mkReference (VStr "db1Ref") (VRef 1%positive) (VRef 2%positive)
         ["read"]]
  ∧ Forall (anchored_trigger 1%positive)
      [mkTrigger (VRef 3%positive) (VRef 1%positive)]
  ∧ Forall (anchored_reference edges_state 1%positive)
      [mkReference (VStr "db1Ref") (VRef 1%positive) (VRef 2%positive)
         ["read"]].
Proof.
  assert (Hbuilt : built alnum_identifier demo_uuid edges_state)
    by (exists edges_script; split; reflexivity).
  split; [exact Hbuilt|]. split; [reflexivity|].
  split; [reflexivity|]. split; [reflexivity|].
  exact (built_edges_are_anchored alnum_identifier demo_uuid edges_state
           Hbuilt 1%positive fn1_edges eq_refl).
Defined.

Lemma instance_ids_from_distinct_calls_witness :
  reachable alnum_identifier demo_uuid demo_state
  ∧ heap demo_state !! 1%positive = Some (OCompute fn1)
  ∧ heap demo_state !! 2%positive = Some (OCompute db1)
  ∧ 1%positive ≠ 2%positive
  ∧ ∃ k1 k2 : nat,
      k1 ≠ k2
      ∧ k1 < uuid_calls demo_state ∧ k2 < uuid_calls demo_state
      ∧ meta_id (meta fn1) = demo_uuid k1
      ∧ meta_id (meta db1) = demo_uuid k2.
Proof.
  split; [apply demo_reachable|]. split; [reflexivity|].
  split; [reflexivity|]. split; [discriminate|].
  exact (proj1 (instance_ids_from_distinct_calls alnum_identifier demo_uuid
                  demo_state 1%positive 2%positive fn1 db1 demo_reachable
                  eq_refl eq_refl ltac:(discriminate))).
Defined.

Lemma construction_checks_persist_witness :
  reachable alnum_identifier demo_uuid demo_state
  ∧ heap demo_state !! 2%positive = Some (OCompute db1)
  ∧ truthy (cfg_id (config db1)) = true
  ∧ alnum_identifier (cfg_id (config db1)) = true
  ∧ meta_type (meta db1) = Compute.
Proof.
  split; [apply demo_reachable|]. split; [reflexivity|].
  destruct (construction_checks_persist alnum_identifier demo_uuid demo_state
              2%positive db1 demo_reachable eq_refl)
    as (Hid & Hvalid & Htype & _).
  split; [exact Hid|]. split; [exact Hvalid|exact Htype].
Defined.

Lemma chain_returns_receiver_witness :
  reachable alnum_identifier demo_uuid proto_state
  ∧ heap proto_state !! 1%positive = Some (OCompute fn1_proto)
  ∧ forallb (safe_link proto_state fn1_proto)
      [FTag (VStr "a") (VStr "b"); FOn (VRef 3%positive);
       FUse (VRef 2%positive) ["read"] VUndefined;
       FEnv (VStr "x") (VStr "y")] = true
  ∧ fst (chain
           [FTag (VStr "a") (VStr "b"); FOn (VRef 3%positive);
            FUse (VRef 2%positive) ["read"] VUndefined;
            FEnv (VStr "x") (VStr "y")] (VRef 1%positive) proto_state)
    = Return (VRef 1%positive)
  ∧ (∀ v : value,
        fst (chain [FEnv (VStr "meta") (VStr "x")] (VRef 1%positive)
               proto_state) = Return v →
        v = VRef 1%positive).
Proof.
  split; [apply proto_reachable|]. split; [reflexivity|].
  split; [reflexivity|].
  split.
  - by rewrite (proj2 (chain_returns_receiver alnum_identifier demo_uuid
                         [FTag (VStr "a") (VStr "b"); FOn (VRef 3%positive);
                          FUse (VRef 2%positive) ["read"] VUndefined;
                          FEnv (VStr "x") (VStr "y")] proto_state
                         1%positive fn1_proto proto_reachable eq_refl)
                  eq_refl).
  - exact (proj1 (chain_returns_receiver alnum_identifier demo_uuid
                    [FEnv (VStr "meta") (VStr "x")] proto_state
                    1%positive fn1_proto proto_reachable eq_refl)).
Defined.

Lemma compute_then_chain_witness :
  reachable alnum_identifier demo_uuid proto_state
  ∧ truthy (VStr "fn2") = true
  ∧ alnum_identifier (VStr "fn2") = true
  ∧ truthy (VStr "python") = true
  ∧ forallb (λ f, resolvable proto_state f && plain_link f)
      [FVcs (VStr "https://example.org/fn2.git");
       FEnv (VStr "meta") (VStr "x");
       FUse (VRef 2%positive) ["read"] VUndefined] = true
  ∧ ∃ (l : loc) (c' : resource) (s' : state),
      (r ← compute alnum_identifier demo_uuid (VStr "fn2") (VStr "python");
       chain
         [FVcs (VStr "https://example.org/fn2.git");
          FEnv (VStr "meta") (VStr "x");
          FUse (VRef 2%positive) ["read"] VUndefined] r) proto_state
      = (Return (VRef l), s')
      ∧ heap proto_state !! l = None
      ∧ heap s' !! l = Some (OCompute c')
      ∧ cfg_id (config c') = VStr "fn2"
      ∧ meta_id (meta c') = demo_uuid (uuid_calls proto_state)
      ∧ meta_type (meta c') = Compute.
Proof.
  split; [apply proto_reachable|]. split; [reflexivity|].
  split; [reflexivity|]. split; [reflexivity|]. split; [reflexivity|].
  exact (compute_then_chain alnum_identifier demo_uuid
           [FVcs (VStr "https://example.org/fn2.git");
            FEnv (VStr "meta") (VStr "x");
            FUse (VRef 2%positive) ["read"] VUndefined]
           (VStr "fn2") (VStr "python") proto_state proto_reachable
           eq_refl eq_refl eq_refl eq_refl).
Defined.

